(** * SoundCloud auto-liker: ingestion, deduplication and action pipeline

    A shallow embedding of [soundcloud_bot.py] (class [SoundCloudAutoLiker])
    and the properties of its pipeline: recency windowing, content
    filtering, the durable set of processed track identifiers, the like
    action and the polling loop.

    Conventions of the embedding.
    - Python [dict]s with a fixed set of keys are records; the dictionary
      built by [get_track_info] is the record [track].
    - Identifiers are integers ([Set[int]] in the source); the set of
      processed identifiers is a [gset Z].
    - The remote SoundCloud client, the wall clock and the disk are the
      environment: one [world] record per cycle says what they answer.
    - Methods that read or change the bot's state run in the monad [M]
      (state, exceptions, and a journal of the calls that were made).
    - Library functions ([datetime.fromisoformat], [json.load],
      [json.dump]) are modelled on the inputs this program produces; the
      theorems below never depend on which other inputs they accept. *)

From Stdlib Require Import ZArith QArith String Ascii List DecimalString Decimal Lia.
From Stdlib Require DecimalPos DecimalFacts.
From stdpp Require Import base gmap list strings.

Open Scope string_scope.
Open Scope list_scope.
Open Scope Z_scope.

(* ===================================================================== *)
(** * Text helpers (Python [str] methods used by the source)             *)
(* ===================================================================== *)

Module Str.

(** [s.lower()], on ASCII letters; other bytes are left as they are. *)
Definition lower_ascii (c : ascii) : ascii :=
  let n := nat_of_ascii c in
  if ((65 <=? n)%nat && (n <=? 90)%nat)%bool then ascii_of_nat (n + 32) else c.

Fixpoint lower (s : string) : string :=
  match s with
  | EmptyString => EmptyString
  | String c r => String (lower_ascii c) (lower r)
  end.

(** [s.replace('Z', '+00:00')]: every occurrence is replaced. *)
Fixpoint replace_Z (s : string) : string :=
  match s with
  | EmptyString => EmptyString
  | String c r =>
      if Ascii.eqb c "Z" then "+00:00" +:+ replace_Z r
      else String c (replace_Z r)
  end.

Definition is_digit (c : ascii) : bool :=
  let n := nat_of_ascii c in ((48 <=? n)%nat && (n <=? 57)%nat)%bool.

Definition digit_val (c : ascii) : Z := Z.of_nat (nat_of_ascii c) - 48.

(** [int(s)] for a string of ASCII digits; [None] is [ValueError]. *)
Fixpoint digits_acc (acc : Z) (s : string) : option Z :=
  match s with
  | EmptyString => Some acc
  | String c r =>
      if is_digit c then digits_acc (10 * acc + digit_val c) r else None
  end.

Definition int_of_digits (s : string) : option Z :=
  match s with
  | EmptyString => None
  | _ => digits_acc 0 s
  end.

(** [s[i:j]] for [0 <= i <= j]. *)
Definition slice (i j : nat) (s : string) : string :=
  String.substring i (j - i) s.

(** [s[i:]]. *)
Definition drop (i : nat) (s : string) : string :=
  String.substring i (String.length s - i) s.

(** [s.find(c)]: index of the first occurrence. *)
Fixpoint find (c : ascii) (s : string) : option nat :=
  match s with
  | EmptyString => None
  | String d r => if Ascii.eqb c d then Some O else S <$> find c r
  end.

(** [str(n)] for an integer. *)
Definition of_Z (n : Z) : string := NilZero.string_of_int (Z.to_int n).

(** [' ' * n]. *)
Fixpoint spaces (n : nat) : string :=
  match n with
  | O => EmptyString
  | S k => String " " (spaces k)
  end.

Definition is_empty (s : string) : bool :=
  match s with EmptyString => true | _ => false end.

(** [''.join(chunks)] *)
Definition join (chunks : list string) : string :=
  foldr String.append EmptyString chunks.

End Str.

(* ===================================================================== *)
(** * Naive and aware datetimes                                          *)
(* ===================================================================== *)

(** A [datetime] value.  [wall] is the reading of its own calendar and
    clock fields (year .. microsecond), counted in microseconds from
    0001-01-01T00:00:00, which is the order Python compares naive
    datetimes in.  [tzinfo] is the UTC offset in microseconds of an aware
    datetime, [None] for a naive one. *)
Record datetime := mk_datetime { wall : Z; tzinfo : option Z }.

Module DT.

Definition us_per_second : Z := 1000000.
Definition us_per_day : Z := 86400 * us_per_second.

Definition is_leap (y : Z) : bool :=
  ((y mod 4 =? 0) && (negb (y mod 100 =? 0) || (y mod 400 =? 0)))%bool.

Definition days_before_year (y : Z) : Z :=
  let p := y - 1 in p * 365 + p / 4 - p / 100 + p / 400.

Definition days_in_month (y m : Z) : Z :=
  if m =? 2 then (if is_leap y then 29 else 28)
  else if (m =? 4) || (m =? 6) || (m =? 9) || (m =? 11) then 30 else 31.

Fixpoint days_before_month_aux (y : Z) (k : nat) : Z :=
  match k with
  | O => 0
  | S k' => days_before_month_aux y k' + days_in_month y (Z.of_nat k)
  end.

(** Days of the year before the first of month [m]. *)
Definition days_before_month (y m : Z) : Z :=
  days_before_month_aux y (Z.to_nat (m - 1)).

(** Proleptic Gregorian ordinal, 0001-01-01 being day 1. *)
Definition ymd2ord (y m d : Z) : Z :=
  days_before_year y + days_before_month y m + d.

Definition in_range (lo x hi : Z) : bool := ((lo <=? x) && (x <=? hi))%bool.

(** The [datetime(...)] constructor: the field ranges are checked
    ([ValueError] otherwise), the fields are laid on the time line. *)
Definition make (y mo d h mi s us : Z) (tz : option Z) : option datetime :=
  if (in_range 1 y 9999 && in_range 1 mo 12 && in_range 1 d (days_in_month y mo)
      && in_range 0 h 23 && in_range 0 mi 59 && in_range 0 s 59
      && in_range 0 us 999999)%bool
  then Some (mk_datetime
               ((ymd2ord y mo d - 1) * us_per_day
                + ((h * 60 + mi) * 60 + s) * us_per_second + us) tz)
  else None.

(** [timedelta(hours=h)] in microseconds. *)
Definition hours (h : Z) : Z := h * 3600 * us_per_second.

(** [dt - timedelta].  The result is taken to stay a date Python can
    hold (years 1 to 9999), as it does for any look-back of less than
    two thousand years; beyond that Python raises [OverflowError]. *)
Definition sub (dt : datetime) (delta : Z) : datetime :=
  mk_datetime (wall dt - delta) (tzinfo dt).

(** [dt.replace(tzinfo=None)]: the offset is dropped, the fields stay. *)
Definition strip_tz (dt : datetime) : datetime := mk_datetime (wall dt) None.

(** The point of the UTC time line an aware datetime denotes: its fields
    minus its offset.  (A naive datetime denotes none by itself.) *)
Definition utc_instant (dt : datetime) : option Z :=
  match tzinfo dt with
  | Some off => Some (wall dt - off)
  | None => None
  end.

(** [a > b] on datetimes: comparing a naive with an aware one raises
    [TypeError] ([None]); two naive ones compare by their fields, two
    aware ones by the instants they denote. *)
Definition gt (a b : datetime) : option bool :=
  match tzinfo a, tzinfo b with
  | None, None => Some (wall b <? wall a)
  | Some oa, Some ob => Some (wall b - ob <? wall a - oa)
  | _, _ => None
  end.

(** ** [datetime.fromisoformat]

    The grammar of Python 3.7 to 3.10,
    [YYYY-MM-DD[*HH[:MM[:SS[.fff[fff]]]][+HH:MM[:SS[.ffffff]]]]],
    with fields of ASCII digits.  [None] stands for [ValueError]. *)

Definition parse_isoformat_date (dtstr : string) : option (Z * Z * Z) :=
  if negb (String.length dtstr =? 10)%nat then None else
  y ← Str.int_of_digits (Str.slice 0 4 dtstr);
  _ ← guard (String.get 4 dtstr = Some "-"%char);
  m ← Str.int_of_digits (Str.slice 5 7 dtstr);
  _ ← guard (String.get 7 dtstr = Some "-"%char);
  d ← Str.int_of_digits (Str.slice 8 10 dtstr);
  Some (y, m, d).

Definition two_digits (pos : nat) (s : string) : option Z :=
  if (String.length s - pos <? 2)%nat then None
  else Str.int_of_digits (Str.slice pos (pos + 2) s).

(** The fraction after the seconds: absent, or [.fff] or [.ffffff]. *)
Definition parse_fraction (pos : nat) (s : string) : option Z :=
  if (String.length s <=? pos)%nat then Some 0
  else if negb (bool_decide (String.get pos s = Some "."%char)) then None
  else
    let rem := Str.drop (S pos) s in
    match String.length rem with
    | 3%nat => (λ n, n * 1000) <$> Str.int_of_digits rem
    | 6%nat => Str.int_of_digits rem
    | _ => None
    end.

(** [HH[:MM[:SS[.fff[fff]]]]] *)
Definition parse_hh_mm_ss_ff (tstr : string) : option (Z * Z * Z * Z) :=
  h ← two_digits 0 tstr;
  match String.get 2 tstr with
  | None => Some (h, 0, 0, 0)
  | Some c =>
      if negb (Ascii.eqb c ":") then None else
      mi ← two_digits 3 tstr;
      match String.get 5 tstr with
      | None => Some (h, mi, 0, 0)
      | Some c' =>
          if negb (Ascii.eqb c' ":") then None else
          s ← two_digits 6 tstr;
          us ← parse_fraction 8 tstr;
          Some (h, mi, s, us)
      end
  end.

(** Position of the sign that starts the offset: the first ['-'], else
    the first ['+']. *)
Definition tz_pos (tstr : string) : option nat :=
  match Str.find "-" tstr with
  | Some i => Some i
  | None => Str.find "+" tstr
  end.

(** [HH[:MM[:SS[.fff[fff]]]][+HH:MM[:SS[.ffffff]]]]; the offset comes
    back in microseconds. *)
Definition parse_isoformat_time (tstr : string)
  : option (Z * Z * Z * Z * option Z) :=
  if (String.length tstr <? 2)%nat then None else
  match tz_pos tstr with
  | None => '(h, mi, s, us) ← parse_hh_mm_ss_ff tstr; Some (h, mi, s, us, None)
  | Some i =>
      '(h, mi, s, us) ← parse_hh_mm_ss_ff (Str.slice 0 i tstr);
      let tzstr := Str.drop (S i) tstr in
      let n := String.length tzstr in
      if negb ((n =? 5) || (n =? 8) || (n =? 15))%nat then None else
      '(th, tmi, ts, tus) ← parse_hh_mm_ss_ff tzstr;
      let off := ((th * 60 + tmi) * 60 + ts) * us_per_second + tus in
      let sign := if bool_decide (String.get i tstr = Some "-"%char) then -1 else 1 in
      (* [timezone(td)] wants the offset strictly within one day *)
      if negb (off <? us_per_day) then None
      else Some (h, mi, s, us, Some (sign * off))
  end.

Definition fromisoformat (date_string : string) : option datetime :=
  let dstr := Str.slice 0 10 date_string in
  let tstr := Str.drop 11 date_string in
  '(y, m, d) ← parse_isoformat_date dstr;
  if Str.is_empty tstr then make y m d 0 0 0 0 None
  else
    '(h, mi, s, us, tz) ← parse_isoformat_time tstr;
    make y m d h mi s us tz.

End DT.

(* ===================================================================== *)
(** * Data model                                                         *)
(* ===================================================================== *)

(** [track_dict['user']] *)
Record user_info := mk_user {
  username : string;
  user_id : option Z
}.

(** The dictionary [get_track_info] returns.  [id] is [None] when the
    API object carries no identifier; an identifier of [0] is as falsy
    for the source's [if track_id:] tests as [None] is. *)
Record track := mk_track {
  id : option Z;
  title : string;
  permalink_url : string;
  duration : Z;            (* milliseconds *)
  genre : string;
  likes_count : Z;
  created_at : string;     (* ISO-8601 text, empty when absent *)
  user : user_info
}.

(** [config['features']] *)
Record features := mk_features {
  auto_like_new_tracks : bool;
  auto_like_reposts : bool;
  auto_like_recommendations : bool
}.

(** [config['filters']] *)
Record filters := mk_filters {
  min_duration_seconds : Z;
  max_duration_seconds : Z;
  genres : list string;
  min_likes : Z
}.

Record config := mk_config {
  auth_token : string;
  your_username : string;
  repost_artists : list string;
  check_interval_minutes : Z;
  hours_lookback : Z;
  dry_run : bool;
  cfg_features : features;
  cfg_filters : filters
}.

(** The defaults [load_config] starts from. *)
Definition default_config : config :=
  {| auth_token := EmptyString;
     your_username := "your_soundcloud_username";
     repost_artists := ["artist_username_1"; "artist_username_2"];
     check_interval_minutes := 60;
     hours_lookback := 72;
     dry_run := true;
     cfg_features := {| auto_like_new_tracks := true;
                        auto_like_reposts := true;
                        auto_like_recommendations := false |};
     cfg_filters := {| min_duration_seconds := 0;
                       max_duration_seconds := 0;
                       genres := [];
                       min_likes := 0 |} |}.

(** Python truthiness of an identifier: [None] and [0] are falsy. *)
Definition truthy_id (i : option Z) : option Z :=
  match i with
  | Some n => if n =? 0 then None else Some n
  | None => None
  end.

(* ===================================================================== *)
(** * RecencyFilter: [is_track_recent]                                   *)
(* ===================================================================== *)

(** The body of the [try] block, [None] when it raises: [fromisoformat]
    on a malformed string, or the comparison of the (now naive) track time
    with an aware cutoff. *)
Definition is_track_recent_try (t : track) (cutoff_time : datetime) : option bool :=
  let created_at := created_at t in
  if Str.is_empty created_at then Some true
  else
    let created_at := Str.replace_Z created_at in
    track_time ← DT.fromisoformat created_at;
    let track_time := DT.strip_tz track_time in
    DT.gt track_time cutoff_time.

Definition is_track_recent (t : track) (cutoff_time : datetime) : bool :=
  match is_track_recent_try t cutoff_time with
  | Some b => b
  | None => true          (* except Exception: return True *)
  end.

(* ===================================================================== *)
(** * ContentFilter: [apply_filters]                                     *)
(* ===================================================================== *)

(** [x < y] on rationals.  [duration_ms / 1000] is a true division in the
    source; its comparison with an integer threshold is the comparison of
    the exact quotient for every duration below 2^53 ms. *)
Definition Qltb (x y : Q) : bool := negb (Qle_bool y x).

Definition apply_filters (cfg : config) (t : track) : bool :=
  let filters := cfg_filters cfg in
  let duration_ms := duration t in
  let duration_seconds := (duration_ms # 1000)%Q in
  if (0 <? min_duration_seconds filters)
     && Qltb duration_seconds (inject_Z (min_duration_seconds filters)) then false
  else if (0 <? max_duration_seconds filters)
     && Qltb (inject_Z (max_duration_seconds filters)) duration_seconds then false
  else
    let genre := Str.lower (genre t) in
    let filter_genres := Str.lower <$> genres filters in
    if negb (bool_decide (filter_genres = [])) && negb (bool_decide (genre ∈ filter_genres))
    then false
    else
      let likes_count := likes_count t in
      if likes_count <? min_likes filters then false
      else true.

(* ===================================================================== *)
(** * JSON documents ([json.load], [json.dump])                          *)
(* ===================================================================== *)

#[warnings="-register-all"]
Inductive json :=
| JNull
| JBool (b : bool)
| JInt (n : Z)
| JStr (s : string)
| JArr (items : list json)
| JObj (members : list (string * json)).

Module Json.

Definition is_ws (c : ascii) : bool :=
  (Ascii.eqb c " " || Ascii.eqb c "010" || Ascii.eqb c "013" || Ascii.eqb c "009")%bool.

Fixpoint skip_ws (s : string) : string :=
  match s with
  | String c r => if is_ws c then skip_ws r else s
  | EmptyString => s
  end.

(** Consumes the literal [lit] at the head of [s]. *)
Fixpoint expect (lit s : string) : option string :=
  match lit, s with
  | EmptyString, _ => Some s
  | String a l', String b s' => if Ascii.eqb a b then expect l' s' else None
  | _, EmptyString => None
  end.

(** A maximal run of digits and what follows it. *)
Fixpoint span_digits (s : string) : string * string :=
  match s with
  | String c r =>
      if Str.is_digit c then let '(d, rest) := span_digits r in (String c d, rest)
      else (EmptyString, s)
  | EmptyString => (EmptyString, EmptyString)
  end.

(** An integer literal: no leading zero, no fraction, no exponent. *)
Definition parse_nat_lit (s : string) : option (Z * string) :=
  let '(d, rest) := span_digits s in
  match d, rest with
  | EmptyString, _ => None
  | String "0" (String _ _), _ => None
  | _, String "." _ | _, String "e" _ | _, String "E" _ => None
  | _, _ => (λ n, (n, rest)) <$> Str.int_of_digits d
  end.

(** The characters of a string literal up to its closing quote (code
    34); of the escapes only an escaped quote and an escaped backslash
    (code 92) are read, control characters are refused. *)
Fixpoint parse_string_body (s : string) : option (string * string) :=
  match s with
  | EmptyString => None
  | String "034" r => Some (EmptyString, r)
  | String "092" (String c r) =>
      if (Ascii.eqb c "034" || Ascii.eqb c "092")%bool
      then '(t, rest) ← parse_string_body r; Some (String c t, rest)
      else None
  | String c r =>
      if (nat_of_ascii c <? 32)%nat then None
      else '(t, rest) ← parse_string_body r; Some (String c t, rest)
  end.

(** Recursive descent; [fuel] bounds the number of values and
    separators read, which the length of the text bounds in turn. *)
Fixpoint parse_value (fuel : nat) (s : string) : option (json * string) :=
  match fuel with
  | O => None
  | S fuel' =>
      match skip_ws s with
      | String "n" r => (λ r', (JNull, r')) <$> expect "ull" r
      | String "t" r => (λ r', (JBool true, r')) <$> expect "rue" r
      | String "f" r => (λ r', (JBool false, r')) <$> expect "alse" r
      | String "034" r => '(t, r') ← parse_string_body r; Some (JStr t, r')
      | String "-" r => '(n, r') ← parse_nat_lit r; Some (JInt (- n), r')
      | String "[" r =>
          match skip_ws r with
          | String "]" r' => Some (JArr [], r')
          | _ => '(vs, r') ← parse_elements fuel' r; Some (JArr vs, r')
          end
      | String "{" r =>
          match skip_ws r with
          | String "}" r' => Some (JObj [], r')
          | _ => '(kvs, r') ← parse_members fuel' r; Some (JObj kvs, r')
          end
      | s' => '(n, r') ← parse_nat_lit s'; Some (JInt n, r')
      end
  end
with parse_elements (fuel : nat) (s : string) : option (list json * string) :=
  match fuel with
  | O => None
  | S fuel' =>
      '(v, r) ← parse_value fuel' s;
      match skip_ws r with
      | String "," r' => '(vs, r'') ← parse_elements fuel' r'; Some (v :: vs, r'')
      | String "]" r' => Some ([v], r')
      | _ => None
      end
  end
with parse_members (fuel : nat) (s : string)
  : option (list (string * json) * string) :=
  match fuel with
  | O => None
  | S fuel' =>
      match skip_ws s with
      | String "034" r =>
          '(k, r1) ← parse_string_body r;
          match skip_ws r1 with
          | String ":" r2 =>
              '(v, r3) ← parse_value fuel' r2;
              match skip_ws r3 with
              | String "," r4 =>
                  '(kvs, r5) ← parse_members fuel' r4; Some ((k, v) :: kvs, r5)
              | String "}" r4 => Some ([(k, v)], r4)
              | _ => None
              end
          | _ => None
          end
      | _ => None
      end
  end.

(** [json.loads]: one value, with nothing but white space after it;
    [None] is [JSONDecodeError]. *)
Definition loads (s : string) : option json :=
  '(v, rest) ← parse_value (S (String.length s)) s;
  if Str.is_empty (skip_ws rest) then Some v else None.

(** [dict.get(key)] on a decoded object: of two members with the same
    name the later one is the one the dictionary holds. *)
Fixpoint dict_get (key : string) (members : list (string * json)) : option json :=
  match members with
  | [] => None
  | (k, v) :: rest =>
      match dict_get key rest with
      | Some v' => Some v'
      | None => if String.eqb k key then Some v else None
      end
  end.

(** ** The encoder of [json.dump(obj, f, indent=4)]

    [json.dump] writes the document to the file chunk by chunk, in the
    order [iterencode] yields them. *)

Fixpoint escape (s : string) : string :=
  match s with
  | EmptyString => EmptyString
  | String c r =>
      if (Ascii.eqb c "034" || Ascii.eqb c "092")%bool
      then String "092" (String c (escape r))
      else String c (escape r)
  end.

(** The string encoder, for printable ASCII text. *)
Definition encode_basestring (s : string) : string :=
  String "034" (escape s) +:+ String "034" EmptyString.

Definition newline_indent (level : nat) : string :=
  String "010" (Str.spaces (4 * level)).

Definition is_container (v : json) : bool :=
  match v with JArr _ | JObj _ => true | _ => false end.

(** The text of a value that is not a container. *)
Definition atom (v : json) : string :=
  match v with
  | JNull => "null"
  | JBool true => "true"
  | JBool false => "false"
  | JInt n => Str.of_Z n
  | JStr s => encode_basestring s
  | _ => EmptyString
  end.

Fixpoint iterencode (v : json) (level : nat) : list string :=
  match v with
  | JArr [] => ["[]"]
  | JArr (x :: xs) =>
      let sep := "," +:+ newline_indent (S level) in
      let item (buf : string) (y : json) : list string :=
        if is_container y then buf :: iterencode y (S level)
        else [buf +:+ atom y] in
      item ("[" +:+ newline_indent (S level)) x
      ++ (fix rest (l : list json) : list string :=
            match l with
            | [] => []
            | y :: l' =>
                (if is_container y then sep :: iterencode y (S level)
                 else [sep +:+ atom y]) ++ rest l'
            end) xs
      ++ [newline_indent level; "]"]
  | JObj [] => ["{}"]
  | JObj ((k, x) :: kvs) =>
      let sep := "," +:+ newline_indent (S level) in
      ["{"; newline_indent (S level)]
      ++ [encode_basestring k; ": "]
      ++ (if is_container x then iterencode x (S level) else [atom x])
      ++ (fix rest (l : list (string * json)) : list string :=
            match l with
            | [] => []
            | (k', y) :: l' =>
                [sep; encode_basestring k'; ": "]
                ++ (if is_container y then iterencode y (S level) else [atom y])
                ++ rest l'
            end) kvs
      ++ [newline_indent level; "}"]
  | _ => [atom v]
  end.

(** The text [json.dump] has written when it is done. *)
Definition dumps (v : json) : string := Str.join (iterencode v 0).

End Json.

(* ===================================================================== *)
(** * The environment: disk, remote client, clock                        *)
(* ===================================================================== *)

(** The content of [processed_tracks.json]; [None] while the file does
    not exist. *)
Definition file := option string.

(** What [open(path, 'w')] followed by writes does to the file, one
    step at a time.  A process killed between two steps leaves the file
    as the steps before it made it.  (Python buffers the writes, which
    delays them: the file a crash leaves is then an earlier one of the
    same sequence, the empty file included.) *)
Module Disk.

Inductive op :=
| Open_w                    (* open(path, 'w'): create, or truncate to nothing *)
| Write (chunk : string)    (* f.write(chunk): append at the end *)
| Close.                    (* leaving the [with] block *)

Definition step (f : file) (o : op) : file :=
  match o with
  | Open_w => Some EmptyString
  | Write chunk => (λ s, s +:+ chunk) <$> f
  | Close => f
  end.

Definition run (ops : list op) (f : file) : file := fold_left step ops f.

(** The file a crash after the first [k] steps leaves behind. *)
Definition crash_after (k : nat) (ops : list op) (f : file) : file :=
  run (take k ops) f.

End Disk.

(** An item of a stream, repost or track listing. *)
Inductive raw_item :=
| RawTrack (t : track)   (* a payload whose attributes [get_track_info] reads as [t] *)
| RawUnusable.           (* no [id] attribute, or reading the attributes raises *)

(** What the client answers for one artist of [repost_artists]. *)
Inductive artist_feed :=
| FeedError                                           (* [resolve] or the listing raises *)
| FeedReposts (artist_id : Z) (items : list raw_item) (* [get_user_reposts] *)
| FeedTracks (artist_id : Z) (items : list raw_item) (fails : bool).
    (* no such method: [get_user_tracks]; [items] are those the listing
       yields, [fails] says that it then raises instead of ending *)

(** The answers of the environment during one cycle. *)
Record world := mk_world {
  now_followings : datetime;      (* [datetime.now()] in the stream scan, naive *)
  now_reposts : datetime;         (* [datetime.now()] in the repost scan, naive *)
  last_updated : string;          (* [datetime.now().isoformat()] at the save *)
  user_stream : list raw_item;    (* items the stream yields before it ends or
                                     fails; none when [resolve] fails *)
  artist : string → artist_feed;
  like_raises : Z → bool;         (* [client.like_track(id)] raises *)
  open_raises : bool;             (* opening the state file for writing raises *)
  interrupt : bool                (* Ctrl-C arrives during the sleep after the cycle *)
}.

(* ===================================================================== *)
(** * The bot's state and the monad of its methods                       *)
(* ===================================================================== *)

Inductive exn :=
| JSONDecodeError
| AttributeError
| TypeError
| ValueError
| OSError
| KeyboardInterrupt.

Inductive result (A : Type) :=
| Ok (a : A)
| Raise (e : exn).
Arguments Ok {A} a.
Arguments Raise {A} e.

(** The calls a run makes, in the order it makes them. *)
Inductive event :=
| EvRecent (t : track)         (* [is_track_recent] is called on [t] *)
| EvFilter (t : track)         (* [apply_filters] is called on [t] *)
| EvLike (t : track)           (* [like_track] is called on [t] *)
| EvRemoteLike (track_id : Z)  (* [client.like_track(track_id)] is called *)
| EvSave (content : string)    (* the state file is rewritten with [content] *)
| EvSleep (seconds : Z).       (* [time.sleep(seconds)] *)

Record bot := mk_bot {
  processed_tracks : gset Z;
  disk : file;
  journal : list event
}.

Definition M (A : Type) : Type := bot → result A * bot.

#[global] Instance M_ret : MRet M := λ A a st, (Ok a, st).
#[global] Instance M_bind : MBind M := λ A B f m st,
  match m st with
  | (Ok a, st') => f a st'
  | (Raise e, st') => (Raise e, st')
  end.

Definition raise {A} (e : exn) : M A := λ st, (Raise e, st).

(** [try: body  except Exception: handler]; [KeyboardInterrupt] is not
    an [Exception] and passes through. *)
Definition try_except {A} (body : M A) (handler : exn → M A) : M A := λ st,
  match body st with
  | (Raise KeyboardInterrupt, st') => (Raise KeyboardInterrupt, st')
  | (Raise e, st') => handler e st'
  | r => r
  end.

Definition gets {A} (f : bot → A) : M A := λ st, (Ok (f st), st).

Definition add_events (evs : list event) (st : bot) : bot :=
  mk_bot (processed_tracks st) (disk st) (journal st ++ evs).

Definition log (e : event) : M unit := λ st, (Ok tt, add_events [e] st).

(** [time.sleep(seconds)]; a negative length is a [ValueError]. *)
Definition sleep (seconds : Z) : M unit :=
  if seconds <? 0 then raise ValueError else log (EvSleep seconds).

(** [self.processed_tracks.add(track_id)] under [if track_id:]. *)
Definition mark_processed (track_id : option Z) : M unit := λ st,
  match truthy_id track_id with
  | Some i => (Ok tt, mk_bot ({[i]} ∪ processed_tracks st) (disk st) (journal st))
  | None => (Ok tt, st)
  end.

(* ===================================================================== *)
(** * DedupStore: [load_processed_tracks], [save_processed_tracks]       *)
(* ===================================================================== *)

(** [set(v)], kept to its integer members: members of another type never
    equal a track identifier.  [True] and [False] are the integers 1 and
    0 to Python's sets.  A value that cannot be iterated, or a member
    that cannot be hashed, raises [TypeError]. *)
Definition set_of_json (v : json) : result (gset Z) :=
  match v with
  | JArr items =>
      if bool_decide (Exists (λ x, Json.is_container x = true) items)
      then Raise TypeError
      else Ok (list_to_set
                 (omap (λ x, match x with
                             | JInt n => Some n
                             | JBool b => Some (if b then 1 else 0)
                             | _ => None
                             end) items))
  | JStr _ | JObj _ => Ok ∅
  | JNull | JBool _ | JInt _ => Raise TypeError
  end.

(** Reads the state file [f]. *)
Definition load_processed_tracks (f : file) : result (gset Z) :=
  match f with
  | Some content =>                         (* tracks_file.exists() *)
      match Json.loads content with
      | None => Raise JSONDecodeError       (* json.load(f) *)
      | Some (JObj members) =>              (* data.get('track_ids', []) *)
          match Json.dict_get "track_ids" members with
          | Some v => set_of_json v
          | None => Ok ∅
          end
      | Some _ => Raise AttributeError      (* data has no [get] *)
      end
  | None => Ok ∅
  end.

(** The part of [__init__] that builds the state of the pipeline; an
    exception here leaves [main] and ends the process. *)
Definition init (f : file) : result bot :=
  match load_processed_tracks f with
  | Ok s => Ok (mk_bot s f [])
  | Raise e => Raise e
  end.

(** The document [save_processed_tracks] dumps.  [list(a_set)] lists the
    members in an order Python does not specify; [elements] fixes one. *)
Definition processed_doc (ids : gset Z) (stamp : string) : json :=
  JObj [("track_ids", JArr (JInt <$> elements ids)); ("last_updated", JStr stamp)].

(** The steps of [save_processed_tracks] on the disk. *)
Definition save_ops (ids : gset Z) (stamp : string) : list Disk.op :=
  Disk.Open_w :: (Disk.Write <$> Json.iterencode (processed_doc ids stamp) 0)
  ++ [Disk.Close].

Definition save_processed_tracks (w : world) : M unit := λ st,
  if open_raises w then (Raise OSError, st)
  else
    let f := Disk.run (save_ops (processed_tracks st) (last_updated w)) (disk st) in
    (Ok tt, mk_bot (processed_tracks st) f
                   (journal st ++ [EvSave (default EmptyString f)])).

(* ===================================================================== *)
(** * ActionExecutor: [like_track], [process_tracks]                     *)
(* ===================================================================== *)

Definition like_track (cfg : config) (w : world) (t : track) : M bool :=
  log (EvLike t);;
  if dry_run cfg then mret true
  else
    match truthy_id (id t) with
    | None => mret false                                    (* no track id *)
    | Some track_id =>
        if Str.is_empty (auth_token cfg) then mret false    (* no auth_token *)
        else
          log (EvRemoteLike track_id);;
          if like_raises w track_id then mret false         (* except Exception *)
          else mret true
    end.

(** One turn of the [for] loop of [process_tracks], inside its [try]. *)
Definition process_track (cfg : config) (w : world) (t : track) : M unit :=
  log (EvFilter t);;
  if negb (apply_filters cfg t) then
    mark_processed (id t)                                   (* continue *)
  else
    liked ← like_track cfg w t;
    (if liked : bool then mark_processed (id t) else mret tt);;
    sleep 1.

Fixpoint process_loop (cfg : config) (w : world) (tracks : list track) : M unit :=
  match tracks with
  | [] => mret tt
  | t :: rest =>
      try_except (process_track cfg w t) (λ _, mret tt);;
      process_loop cfg w rest
  end.

Definition process_tracks (cfg : config) (w : world) (tracks : list track) : M unit :=
  process_loop cfg w tracks;;
  save_processed_tracks w.

(* ===================================================================== *)
(** * Aggregator: the two discovery paths and [run_once]                 *)
(* ===================================================================== *)

(** [self.is_track_recent(track_dict, cutoff_time)], journalled. *)
Definition call_is_track_recent (t : track) (cutoff_time : datetime) : M bool :=
  log (EvRecent t);;
  mret (is_track_recent t cutoff_time).

(** The [for item in stream_items] loop; [new_tracks] is the list being
    appended to. *)
Fixpoint stream_loop (cutoff_time : datetime) (items : list raw_item)
    (new_tracks : list track) : M (list track) :=
  match items with
  | [] => mret new_tracks
  | RawUnusable :: rest => stream_loop cutoff_time rest new_tracks
  | RawTrack track_dict :: rest =>
      match truthy_id (id track_dict) with
      | None => stream_loop cutoff_time rest new_tracks
      | Some track_id =>
          is_recent ← call_is_track_recent track_dict cutoff_time;
          processed ← gets processed_tracks;
          if negb (bool_decide (track_id ∈ processed)) && is_recent
          then stream_loop cutoff_time rest (new_tracks ++ [track_dict])
          else stream_loop cutoff_time rest new_tracks
      end
  end.

Definition get_new_tracks_from_followings (cfg : config) (w : world) : M (list track) :=
  if negb (auto_like_new_tracks (cfg_features cfg)) then mret []
  else
    let username := your_username cfg in
    if Str.is_empty username || String.eqb username "your_soundcloud_username"
    then mret []
    else
      let stream_items := user_stream w in
      let hours_back := hours_lookback cfg in
      let cutoff_time := DT.sub (now_followings w) (DT.hours hours_back) in
      stream_loop cutoff_time stream_items [].

(** The [for track in tracks_source] loop for one artist.
    [use_repost_method] says which listing the tracks came from. *)
Fixpoint artist_loop (cutoff_time : datetime) (use_repost_method : bool)
    (artist_id : Z) (items : list raw_item) (repost_tracks : list track)
  : M (list track) :=
  match items with
  | [] => mret repost_tracks
  | RawUnusable :: rest =>
      artist_loop cutoff_time use_repost_method artist_id rest repost_tracks
  | RawTrack track_dict :: rest =>
      match truthy_id (id track_dict) with
      | None => artist_loop cutoff_time use_repost_method artist_id rest repost_tracks
      | Some track_id =>
          let is_repost :=
            if use_repost_method then true
            else negb (bool_decide (user_id (user track_dict) = Some artist_id)) in
          is_recent ← call_is_track_recent track_dict cutoff_time;
          processed ← gets processed_tracks;
          if is_repost && negb (bool_decide (track_id ∈ processed)) && is_recent
          then artist_loop cutoff_time use_repost_method artist_id rest
                           (repost_tracks ++ [track_dict])
          else artist_loop cutoff_time use_repost_method artist_id rest repost_tracks
      end
  end.

(** The [for artist_username in config['repost_artists']] loop. *)
Fixpoint artists_loop (w : world) (cutoff_time : datetime) (artists : list string)
    (repost_tracks : list track) : M (list track) :=
  match artists with
  | [] => mret repost_tracks
  | artist_username :: rest =>
      match artist w artist_username with
      | FeedError => artists_loop w cutoff_time rest repost_tracks
      | FeedReposts artist_id items =>
          repost_tracks' ← artist_loop cutoff_time true artist_id items repost_tracks;
          sleep 1;;
          artists_loop w cutoff_time rest repost_tracks'
      | FeedTracks artist_id items fails =>
          repost_tracks' ← artist_loop cutoff_time false artist_id items repost_tracks;
          (if fails : bool then mret tt else sleep 1);;
          artists_loop w cutoff_time rest repost_tracks'
      end
  end.

Definition get_reposts_from_selected_artists (cfg : config) (w : world)
  : M (list track) :=
  if negb (auto_like_reposts (cfg_features cfg)) then mret []
  else
    let hours_back := hours_lookback cfg in
    let cutoff_time := DT.sub (now_reposts w) (DT.hours hours_back) in
    artists_loop w cutoff_time (repost_artists cfg) [].

(** [unique_tracks], a dictionary in insertion order: the loop that
    removes duplicates keeps, for each identifier, the first track that
    carries it. *)
Fixpoint unique_loop (all_tracks : list track) (unique_tracks : list (Z * track))
  : list (Z * track) :=
  match all_tracks with
  | [] => unique_tracks
  | t :: rest =>
      match truthy_id (id t) with
      | Some track_id =>
          if bool_decide (track_id ∈ unique_tracks.*1)
          then unique_loop rest unique_tracks
          else unique_loop rest (unique_tracks ++ [(track_id, t)])
      | None => unique_loop rest unique_tracks
      end
  end.

(** The first half of [run_once]: both discovery paths, then the removal
    of duplicates.  The value is [list(unique_tracks.values())]. *)
Definition collect_tracks (cfg : config) (w : world) : M (list track) :=
  new_tracks ← get_new_tracks_from_followings cfg w;
  repost_tracks ← get_reposts_from_selected_artists cfg w;
  let all_tracks := new_tracks ++ repost_tracks in
  let unique_tracks := unique_loop all_tracks [] in
  mret (unique_tracks.*2).

Definition run_once (cfg : config) (w : world) : M unit :=
  tracks ← collect_tracks cfg w;
  match tracks with
  | [] => mret tt                        (* "no new tracks": nothing else is done *)
  | _ => process_tracks cfg w tracks
  end.

(* ===================================================================== *)
(** * Scheduler: [run]                                                   *)
(* ===================================================================== *)

(** How the observation of the perpetual loop ends. *)
Inductive loop_end :=
| StillLooping            (* the cycles observed are over, the loop goes on *)
| StoppedByUser           (* KeyboardInterrupt: logged, [run] returns *)
| Reraised (e : exn).     (* except Exception: logged and raised again *)

(** [time.sleep(wait_seconds)] at the end of a cycle, where Ctrl-C lands. *)
Definition interval_sleep (cfg : config) (w : world) : M unit :=
  sleep (check_interval_minutes cfg * 60);;
  if interrupt w then raise KeyboardInterrupt else mret tt.

(** The [while True] loop of [run], observed for one [world] per cycle. *)
Fixpoint run (cfg : config) (ws : list world) (st : bot) : loop_end * bot :=
  match ws with
  | [] => (StillLooping, st)
  | w :: ws' =>
      match (run_once cfg w;; interval_sleep cfg w) st with
      | (Ok _, st') => run cfg ws' st'
      | (Raise KeyboardInterrupt, st') => (StoppedByUser, st')
      | (Raise e, st') => (Reraised e, st')
      end
  end.

(* ===================================================================== *)
(** * Observations on states and journals                                *)
(* ===================================================================== *)

(** The events a run appended to the journal. *)
Definition new_events (before after : bot) : list event :=
  drop (length (journal before)) (journal after).

(** The track of the batch carries identifier [i]. *)
Definition has_id (i : Z) (t : track) : bool :=
  bool_decide (truthy_id (id t) = Some i).

(** The identifiers a list of tracks carries, in order. *)
Definition ids_of (tracks : list track) : list Z :=
  omap (λ t, truthy_id (id t)) tracks.

Definition is_recent_of (i : Z) (e : event) : bool :=
  match e with EvRecent t => has_id i t | _ => false end.

Definition is_filter_of (i : Z) (e : event) : bool :=
  match e with EvFilter t => has_id i t | _ => false end.

Definition is_like_of (i : Z) (e : event) : bool :=
  match e with EvLike t => has_id i t | _ => false end.

Definition is_remote_like (e : event) : bool :=
  match e with EvRemoteLike _ => true | _ => false end.

Definition is_remote_like_of (i : Z) (e : event) : bool :=
  match e with EvRemoteLike j => bool_decide (j = i) | _ => false end.

Definition is_save (e : event) : bool :=
  match e with EvSave _ => true | _ => false end.

(** Events of the action stage: filter, like, remote like, save. *)
Definition is_action (e : event) : bool :=
  match e with EvRecent _ | EvSleep _ => false | _ => true end.

(** The raw items the sources present during a cycle. *)
Definition feed_items (f : artist_feed) : list raw_item :=
  match f with
  | FeedError => []
  | FeedReposts _ items | FeedTracks _ items _ => items
  end.

Definition world_items (cfg : config) (w : world) : list raw_item :=
  user_stream w ++ (repost_artists cfg ≫= λ a, feed_items (artist w a)).

(** ** What the loops compute, read off as pure functions

    The lemmas of the first part below show that the monadic loops
    compute exactly these. *)

Definition usable (it : raw_item) : option (Z * track) :=
  match it with
  | RawTrack t => (λ i, (i, t)) <$> truthy_id (id t)
  | RawUnusable => None
  end.

(** The tracks a scan keeps, given its test. *)
Definition select (keep : Z → track → bool) (items : list raw_item) : list track :=
  omap (λ it, '(i, t) ← usable it; if keep i t then Some t else None) items.

(** The recency calls a scan makes. *)
Definition scan_events (items : list raw_item) : list event :=
  omap (λ it, (λ p, EvRecent p.2) <$> usable it) items.

Definition keep_new (processed : gset Z) (cutoff : datetime) (i : Z) (t : track) : bool :=
  negb (bool_decide (i ∈ processed)) && is_track_recent t cutoff.

Definition keep_repost (processed : gset Z) (cutoff : datetime)
    (use_repost_method : bool) (artist_id : Z) (i : Z) (t : track) : bool :=
  (if use_repost_method then true
   else negb (bool_decide (user_id (user t) = Some artist_id)))
  && negb (bool_decide (i ∈ processed)) && is_track_recent t cutoff.

Definition feed_select (processed : gset Z) (cutoff : datetime) (f : artist_feed)
  : list track :=
  match f with
  | FeedError => []
  | FeedReposts a items => select (keep_repost processed cutoff true a) items
  | FeedTracks a items _ => select (keep_repost processed cutoff false a) items
  end.

Definition feed_events (f : artist_feed) : list event :=
  match f with
  | FeedError => []
  | FeedReposts _ items => scan_events items ++ [EvSleep 1]
  | FeedTracks _ items fails =>
      scan_events items ++ (if fails then [] else [EvSleep 1])
  end.

Definition like_value (cfg : config) (w : world) (t : track) : bool :=
  if dry_run cfg then true
  else match truthy_id (id t) with
       | None => false
       | Some i => if Str.is_empty (auth_token cfg) then false
                   else negb (like_raises w i)
       end.

Definition like_events (cfg : config) (w : world) (t : track) : list event :=
  EvLike t ::
  (if dry_run cfg then []
   else match truthy_id (id t) with
        | None => []
        | Some i => if Str.is_empty (auth_token cfg) then [] else [EvRemoteLike i]
        end).

(** The identifier one turn of [process_tracks] adds, if any. *)
Definition track_marks (cfg : config) (w : world) (t : track) : gset Z :=
  if negb (apply_filters cfg t) || like_value cfg w t
  then match truthy_id (id t) with Some i => {[i]} | None => ∅ end
  else ∅.

Definition track_events (cfg : config) (w : world) (t : track) : list event :=
  EvFilter t ::
  (if apply_filters cfg t then like_events cfg w t ++ [EvSleep 1] else []).

(** ** Statements of the rules of the content filter *)

Definition min_duration_ok (f : filters) (t : track) : Prop :=
  min_duration_seconds f ≤ 0 ∨ 1000 * min_duration_seconds f ≤ duration t.

Definition max_duration_ok (f : filters) (t : track) : Prop :=
  max_duration_seconds f ≤ 0 ∨ duration t ≤ 1000 * max_duration_seconds f.

Definition genre_ok (f : filters) (t : track) : Prop :=
  genres f = [] ∨ Str.lower (genre t) ∈ Str.lower <$> genres f.

Definition likes_ok (f : filters) (t : track) : Prop :=
  min_likes f ≤ likes_count t.

(** ** What a cycle computes, read off as pure functions *)

Definition followings_cutoff (cfg : config) (w : world) : datetime :=
  DT.sub (now_followings w) (DT.hours (hours_lookback cfg)).

Definition reposts_cutoff (cfg : config) (w : world) : datetime :=
  DT.sub (now_reposts w) (DT.hours (hours_lookback cfg)).

(** The stream scan is switched on and has a user name to resolve. *)
Definition followings_on (cfg : config) : bool :=
  auto_like_new_tracks (cfg_features cfg)
  && negb (Str.is_empty (your_username cfg)
           || String.eqb (your_username cfg) "your_soundcloud_username").

Definition followings_tracks (cfg : config) (w : world) (processed : gset Z)
  : list track :=
  if followings_on cfg
  then select (keep_new processed (followings_cutoff cfg w)) (user_stream w)
  else [].

Definition followings_events (cfg : config) (w : world) : list event :=
  if followings_on cfg then scan_events (user_stream w) else [].

Definition reposts_tracks (cfg : config) (w : world) (processed : gset Z)
  : list track :=
  if auto_like_reposts (cfg_features cfg)
  then repost_artists cfg ≫= λ a, feed_select processed (reposts_cutoff cfg w) (artist w a)
  else [].

Definition reposts_events (cfg : config) (w : world) : list event :=
  if auto_like_reposts (cfg_features cfg)
  then repost_artists cfg ≫= λ a, feed_events (artist w a)
  else [].

Definition discovery_events (cfg : config) (w : world) : list event :=
  followings_events cfg w ++ reposts_events cfg w.

(** The batch [run_once] hands to [process_tracks]. *)
Definition batch (cfg : config) (w : world) (processed : gset Z) : list track :=
  (unique_loop (followings_tracks cfg w processed ++ reposts_tracks cfg w processed) []).*2.

Definition loop_marks (cfg : config) (w : world) (tracks : list track) : gset Z :=
  ⋃ (track_marks cfg w <$> tracks).

Definition loop_events (cfg : config) (w : world) (tracks : list track) : list event :=
  tracks ≫= track_events cfg w.

(** The state after some turns of [process_tracks]: the identifiers
    [marks] added, the events [evs] journalled. *)
Definition after_marks (marks : gset Z) (evs : list event) (st : bot) : bot :=
  mk_bot (marks ∪ processed_tracks st) (disk st) (journal st ++ evs).

(* ===================================================================== *)
(** * Concrete configurations, tracks and worlds used in the examples    *)
(* ===================================================================== *)

Module Examples.

Definition somebody : user_info := mk_user "somebody" (Some 77).

(** A track with the given identifier and creation time, nothing else. *)
Definition plain_track (i : Z) (created : string) : track :=
  mk_track (Some i) "untitled" EmptyString 0 EmptyString 0 created somebody.

(** The same instant written with two offsets. *)
Definition ten_plus_five : track := plain_track 1 "2024-01-01T10:00:00+05:00".
Definition five_utc : track := plain_track 2 "2024-01-01T05:00:00Z".

Definition parse_time (s : string) : datetime :=
  default (mk_datetime 0 None) (DT.fromisoformat s).

Definition eight_o_clock : datetime := parse_time "2024-01-01T08:00:00".

Definition at_cutoff : track := plain_track 3 "2024-01-01T08:00:00Z".
Definition second_after : track := plain_track 4 "2024-01-01T08:00:01Z".
Definition no_timestamp : track := plain_track 5 EmptyString.
Definition bad_timestamp : track := plain_track 6 "yesterday".

(** A live configuration: real likes, a token, both paths on. *)
Definition live_config : config :=
  mk_config "token" "me" ["dj"] 60 72 false
            (mk_features true true false) (mk_filters 0 0 [] 0).

(** The same in simulate mode. *)
Definition dry_config : config :=
  mk_config "token" "me" ["dj"] 60 72 true
            (mk_features true true false) (mk_filters 0 0 [] 0).

(** A configuration whose filter wants five likes. *)
Definition picky_config : config :=
  mk_config "token" "me" ["dj"] 60 72 false
            (mk_features true true false) (mk_filters 0 0 [] 5).

Definition noon : datetime := parse_time "2024-01-03T12:00:00".

(** A quiet world: nothing in the stream, no artist resolves. *)
Definition quiet_world : world :=
  mk_world noon noon "2024-01-03T12:00:00" [] (λ _, FeedError) (λ _, false)
           false false.

Definition fresh : track := plain_track 7 "2024-01-03T11:00:00Z".
Definition fresh_again : track :=
  mk_track (Some 7) "reposted" EmptyString 0 EmptyString 0
           "2024-01-03T11:30:00Z" somebody.
Definition other : track := plain_track 8 "2024-01-03T10:00:00Z".

(** Track 7 is in the stream, and the artist reposted it too. *)
Definition busy_world : world :=
  mk_world noon noon "2024-01-03T12:00:00" [RawTrack fresh]
           (λ _, FeedReposts 9 [RawTrack fresh_again; RawTrack other])
           (λ _, false) false false.

(** The stream shows track 7; every remote like fails. *)
Definition failing_like_world : world :=
  mk_world noon noon "2024-01-03T12:00:00" [RawTrack fresh] (λ _, FeedError)
           (λ _, true) false false.

(** The stream shows track 7; the state file cannot be opened. *)
Definition read_only_world : world :=
  mk_world noon noon "2024-01-03T12:00:00" [RawTrack fresh] (λ _, FeedError)
           (λ _, false) true false.

(** The stream shows track 7 and nothing else. *)
Definition stream_world : world :=
  mk_world noon noon "2024-01-03T12:00:00" [RawTrack fresh] (λ _, FeedError)
           (λ _, false) false false.

Definition blank : bot := mk_bot ∅ None [].
Definition seen_seven : bot := mk_bot {[7]} None [].

Definition old_document : string :=
  Json.dumps (processed_doc {[1; 2]} "2024-01-01T00:00:00").

End Examples.

(* ===================================================================== *)
(** * Further observations                                               *)
(* ===================================================================== *)

(** Text without control characters, such as an ISO-8601 timestamp. *)
Fixpoint printable (s : string) : bool :=
  match s with
  | EmptyString => true
  | String c r => (32 <=? nat_of_ascii c)%nat && printable r
  end.

(** A text that cannot continue a number: it does not begin with a
    digit, a point or an exponent mark. *)
Definition ends_number (s : string) : bool :=
  match s with
  | EmptyString => true
  | String c _ =>
      negb (Str.is_digit c || Ascii.eqb c "." || Ascii.eqb c "e" || Ascii.eqb c "E")
  end.

(** The text that follows the first integer of an array of the state
    file: the other integers, each after a comma and a line break, then
    the closing bracket on a line of its own. *)
Definition after_first (xs : list Z) (rest : string) : string :=
  Str.join ((λ y, ("," +:+ Json.newline_indent 2) +:+ Str.of_Z y) <$> xs)
  +:+ Json.newline_indent 1 +:+ "]" +:+ rest.

(** The state file holds the set the bot has in memory: a fresh process
    would start from the same ProcessedSet. *)
Definition in_sync (st : bot) : Prop :=
  load_processed_tracks (disk st) = Ok (processed_tracks st).

(** One turn of the [while True] loop of [run]. *)
Definition cycle (cfg : config) (w : world) : M unit :=
  run_once cfg w;; interval_sleep cfg w.

(** The event is a call of the action stage on identifier [i]. *)
Definition touches (i : Z) (e : event) : bool :=
  is_filter_of i e || is_like_of i e || is_remote_like_of i e.

Definition is_pause (e : event) : bool :=
  match e with EvSleep _ => true | _ => false end.



(** From a state [st0] on, the loop only adds identifiers and events,
    and none of the events touches an identifier [st0] had processed. *)
Definition grown_from (st0 st : bot) : Prop :=
  processed_tracks st0 ⊆ processed_tracks st
  ∧ ∃ evs, journal st = journal st0 ++ evs
           ∧ ∀ i, i ∈ processed_tracks st0 → List.filter (touches i) evs = [].



Definition is_like_call (e : event) : bool :=
  match e with EvLike _ => true | _ => false end.


(* ===================================================================== *)
(** * Properties                                                         *)
(* ===================================================================== *)

(* ===================================================================== *)
(** * ContentFilter                                                      *)
(* ===================================================================== *)

Section ContentFilter.

Lemma Qltb_seconds_lt (d m : Z) :
  Qltb (d # 1000) (inject_Z m) = (d <? 1000 * m).
Proof.
  unfold Qltb, Qle_bool, inject_Z; simpl.
  destruct (Z.leb_spec (m * 1000) (d * 1)), (Z.ltb_spec d (1000 * m)); simpl; lia.
Qed.

Lemma Qltb_seconds_gt (d m : Z) :
  Qltb (inject_Z m) (d # 1000) = (1000 * m <? d).
Proof.
  unfold Qltb, Qle_bool, inject_Z; simpl.
  destruct (Z.leb_spec (d * 1) (m * 1000)), (Z.ltb_spec (1000 * m) d); simpl; lia.
Qed.

(** [apply_filters] admits a track exactly when the four rules hold. *)
Lemma apply_filters_rules (cfg : config) (t : track) :
  apply_filters cfg t = true ↔
    min_duration_ok (cfg_filters cfg) t ∧ max_duration_ok (cfg_filters cfg) t
    ∧ genre_ok (cfg_filters cfg) t ∧ likes_ok (cfg_filters cfg) t.
Proof.
  unfold apply_filters, min_duration_ok, max_duration_ok, genre_ok, likes_ok.
  rewrite Qltb_seconds_lt, Qltb_seconds_gt.
  set (f := cfg_filters cfg).
  destruct (Z.ltb_spec 0 (min_duration_seconds f));
    destruct (Z.ltb_spec (duration t) (1000 * min_duration_seconds f)); simpl;
    try (split; [discriminate | intros [[?|?] _]; lia]);
  (destruct (Z.ltb_spec 0 (max_duration_seconds f));
    destruct (Z.ltb_spec (1000 * max_duration_seconds f) (duration t)); simpl;
    try (split; [discriminate | intros (_ & [?|?] & _); lia]));
  (destruct (genres f) as [|g gs] eqn:Hg; simpl;
    [| case_bool_decide as Hin; simpl;
       [| split; [discriminate | intros (_ & _ & [?|?] & _); done]]]);
  (destruct (Z.ltb_spec (likes_count t) (min_likes f));
    [split; [discriminate | intros (_ & _ & _ & ?); lia]
    | split; [intros _ | done]; repeat split; auto; lia]).
Qed.

End ContentFilter.

(** C10. Thresholds of zero and an empty genre list switch a rule off:
    [apply_filters] admits a track exactly when it passes the minimum
    duration, maximum duration, genre and likes rules; the minimum
    duration rule passes every track (a 0-second one included) when
    [min_duration_seconds = 0], the maximum duration rule passes a track
    of any length when [max_duration_seconds = 0], the genre rule passes
    any genre when [genres] is empty; and a track that fails a rule is
    rejected. *)
Theorem apply_filters_zero_means_disabled (cfg : config) (t : track) :
  let f := cfg_filters cfg in
  (apply_filters cfg t = true ↔
     min_duration_ok f t ∧ max_duration_ok f t ∧ genre_ok f t ∧ likes_ok f t)
  ∧ (min_duration_seconds f = 0 → min_duration_ok f t)
  ∧ (max_duration_seconds f = 0 → max_duration_ok f t)
  ∧ (genres f = [] → genre_ok f t)
  ∧ (min_duration_seconds f = 0 → max_duration_seconds f = 0 → genres f = [] →
     apply_filters cfg t = bool_decide (min_likes f ≤ likes_count t))
  ∧ (¬ (min_duration_ok f t ∧ max_duration_ok f t ∧ genre_ok f t ∧ likes_ok f t) →
     apply_filters cfg t = false).
Proof.
  intros f. pose proof (apply_filters_rules cfg t) as Hiff. fold f in Hiff.
  split; [exact Hiff |].
  split; [intros H; left; lia |].
  split; [intros H; left; lia |].
  split; [intros H; by left |].
  split.
  - intros Hmin Hmax Hg.
    case_bool_decide as Hl.
    + apply Hiff. unfold min_duration_ok, max_duration_ok, genre_ok, likes_ok.
      rewrite Hmin, Hmax, Hg. repeat split; auto; left; lia.
    + destruct (apply_filters cfg t) eqn:E; [| done].
      destruct Hiff as [Hiff _]. destruct (Hiff eq_refl) as (_ & _ & _ & ?). done.
  - intros Hn. destruct (apply_filters cfg t) eqn:E; [| done].
    destruct Hiff as [Hiff _]. by destruct Hn; apply Hiff.
Qed.

(** With the default filters a 0-second track without genre is admitted;
    with [min_likes = 5] the same track, which has no likes, is rejected. *)
Lemma apply_filters_zero_means_disabled_witness :
  apply_filters default_config Examples.no_timestamp = true
  ∧ apply_filters Examples.picky_config Examples.no_timestamp = false.
Proof.
  destruct (apply_filters_zero_means_disabled default_config Examples.no_timestamp)
    as (_ & _ & _ & _ & H & _).
  destruct (apply_filters_zero_means_disabled Examples.picky_config
              Examples.no_timestamp) as (_ & _ & _ & _ & H' & _).
  split.
  - rewrite (H eq_refl eq_refl eq_refl). reflexivity.
  - rewrite (H' eq_refl eq_refl eq_refl). reflexivity.
Defined.

(* ===================================================================== *)
(** * RecencyFilter                                                      *)
(* ===================================================================== *)

Section Recency.

Variables (t : track) (cutoff : datetime).
Hypothesis naive_cutoff : tzinfo cutoff = None.

Lemma is_track_recent_no_timestamp :
  created_at t = EmptyString → is_track_recent t cutoff = true.
Proof. unfold is_track_recent, is_track_recent_try. by intros ->. Qed.

Lemma is_track_recent_unparseable :
  DT.fromisoformat (Str.replace_Z (created_at t)) = None →
  is_track_recent t cutoff = true.
Proof.
  unfold is_track_recent, is_track_recent_try. intros ->.
  by destruct (Str.is_empty _).
Qed.

Lemma is_track_recent_parsed (dt : datetime) :
  created_at t ≠ EmptyString →
  DT.fromisoformat (Str.replace_Z (created_at t)) = Some dt →
  is_track_recent t cutoff = bool_decide (wall cutoff < wall dt).
Proof.
  unfold is_track_recent, is_track_recent_try. intros Hne ->.
  destruct (created_at t) eqn:E; [done |]. simpl.
  unfold DT.gt. simpl. rewrite naive_cutoff.
  case_bool_decide; [by apply Z.ltb_lt | by apply Z.ltb_ge; lia].
Qed.

End Recency.

(** C6 (as the code has it). Against a naive cutoff, a track is recent
    exactly when its creation timestamp is missing, or does not parse, or
    parses to a datetime whose own calendar and clock fields, the UTC
    offset being dropped and not applied, lie strictly after the cutoff:
    a track stamped at the cutoff is not recent, one a second later is. *)
Theorem is_track_recent_decision (t : track) (cutoff : datetime) :
  tzinfo cutoff = None →
  (created_at t = EmptyString → is_track_recent t cutoff = true)
  ∧ (DT.fromisoformat (Str.replace_Z (created_at t)) = None →
     is_track_recent t cutoff = true)
  ∧ (∀ dt, created_at t ≠ EmptyString →
       DT.fromisoformat (Str.replace_Z (created_at t)) = Some dt →
       (is_track_recent t cutoff = true ↔ wall cutoff < wall dt)
       ∧ (wall dt = wall cutoff → is_track_recent t cutoff = false)
       ∧ (wall dt = wall cutoff + DT.us_per_second → is_track_recent t cutoff = true)).
Proof.
  intros Hc. split; [apply is_track_recent_no_timestamp |].
  split; [apply is_track_recent_unparseable |].
  intros dt Hne Hp. rewrite (is_track_recent_parsed t cutoff Hc dt Hne Hp).
  split; [| split].
  - by rewrite bool_decide_eq_true.
  - intros ->. apply bool_decide_eq_false. lia.
  - intros ->. apply bool_decide_eq_true. unfold DT.us_per_second. lia.
Qed.

(** The boundary at a cutoff of 08:00: stamped 08:00:00 is not recent,
    08:00:01 is; no timestamp and an unparseable one are recent. *)
Lemma is_track_recent_decision_witness :
  is_track_recent Examples.at_cutoff Examples.eight_o_clock = false
  ∧ is_track_recent Examples.second_after Examples.eight_o_clock = true
  ∧ is_track_recent Examples.no_timestamp Examples.eight_o_clock = true
  ∧ is_track_recent Examples.bad_timestamp Examples.eight_o_clock = true.
Proof.
  pose proof (is_track_recent_decision Examples.at_cutoff Examples.eight_o_clock
                eq_refl) as (_ & _ & H1).
  pose proof (is_track_recent_decision Examples.second_after Examples.eight_o_clock
                eq_refl) as (_ & _ & H2).
  pose proof (is_track_recent_decision Examples.no_timestamp Examples.eight_o_clock
                eq_refl) as (H3 & _).
  pose proof (is_track_recent_decision Examples.bad_timestamp Examples.eight_o_clock
                eq_refl) as (_ & H4 & _).
  split; [| split; [| split]].
  - eapply H1; [done | vm_compute; reflexivity | vm_compute; reflexivity].
  - eapply H2; [done | vm_compute; reflexivity | vm_compute; reflexivity].
  - apply H3. reflexivity.
  - apply H4. vm_compute. reflexivity.
Defined.

(** C6 (as stated) fails: the two creation timestamps below denote the
    same instant, written with offsets +05:00 and Z; against the same
    cutoff 08:00 the first track is recent and the second is not, so the
    decision is not taken in one clock. *)
Lemma is_track_recent_drops_offset :
  (DT.fromisoformat (Str.replace_Z (created_at Examples.ten_plus_five))
     ≫= DT.utc_instant)
  = (DT.fromisoformat (Str.replace_Z (created_at Examples.five_utc))
     ≫= DT.utc_instant)
  ∧ is_Some (DT.fromisoformat (Str.replace_Z (created_at Examples.five_utc))
             ≫= DT.utc_instant)
  ∧ is_track_recent Examples.ten_plus_five Examples.eight_o_clock = true
  ∧ is_track_recent Examples.five_utc Examples.eight_o_clock = false.
Proof.
  split; [vm_compute; reflexivity |].
  split; [vm_compute; eauto |].
  split; vm_compute; reflexivity.
Qed.

(* ===================================================================== *)
(** * DedupStore                                                         *)
(* ===================================================================== *)

Section Text.

Lemma append_cons (c : ascii) (s t : string) :
  String c s +:+ t = String c (s +:+ t).
Proof. reflexivity. Qed.

Lemma append_empty_r (s : string) : s +:+ EmptyString = s.
Proof. induction s as [| c s IH]; [done |]. by rewrite append_cons, IH. Qed.

Lemma append_assoc (a b c : string) : (a +:+ b) +:+ c = a +:+ (b +:+ c).
Proof. induction a as [| x a IH]; [done |]. by rewrite !append_cons, IH. Qed.

Lemma join_app (l k : list string) : Str.join (l ++ k) = Str.join l +:+ Str.join k.
Proof.
  induction l as [| c l IH]; simpl; [done |].
  unfold Str.join in *. simpl. by rewrite IH, append_assoc.
Qed.

Lemma join_take_prefix (n : nat) (l : list string) :
  Str.join l = Str.join (take n l) +:+ Str.join (drop n l).
Proof. by rewrite <- join_app, take_drop. Qed.

End Text.

Section DiskSteps.

Lemma run_writes (chunks : list string) (s : string) :
  Disk.run (Disk.Write <$> chunks) (Some s) = Some (s +:+ Str.join chunks).
Proof.
  unfold Disk.run. revert s.
  induction chunks as [| c chunks IH]; intros s; simpl.
  - by rewrite append_empty_r.
  - rewrite IH. unfold Str.join. simpl. by rewrite append_assoc.
Qed.

Lemma run_cons (o : Disk.op) (ops : list Disk.op) (f : file) :
  Disk.run (o :: ops) f = Disk.run ops (Disk.step f o).
Proof. reflexivity. Qed.

Lemma run_app (ops ops' : list Disk.op) (f : file) :
  Disk.run (ops ++ ops') f = Disk.run ops' (Disk.run ops f).
Proof. apply fold_left_app. Qed.

(** Once the file is open, a crash leaves the chunks written so far. *)
Lemma crash_after_open (chunks : list string) (f : file) (k : nat) :
  Disk.crash_after (S k) (Disk.Open_w :: (Disk.Write <$> chunks) ++ [Disk.Close]) f
  = Some (Str.join (take k chunks)).
Proof.
  unfold Disk.crash_after. rewrite firstn_cons, run_cons. simpl.
  destruct (decide (k ≤ length chunks)%nat) as [Hk | Hk].
  - rewrite take_app_le by (by rewrite length_fmap).
    rewrite <- fmap_take. by rewrite run_writes.
  - rewrite take_ge by (rewrite length_app, length_fmap; simpl; lia).
    rewrite run_app, run_writes. simpl.
    by rewrite (take_ge chunks) by lia.
Qed.

Lemma run_save_ops (ids : gset Z) (stamp : string) (f : file) :
  Disk.run (save_ops ids stamp) f = Some (Json.dumps (processed_doc ids stamp)).
Proof.
  unfold save_ops. rewrite run_cons, run_app.
  change (Disk.step f Disk.Open_w) with (Some EmptyString).
  by rewrite run_writes.
Qed.

End DiskSteps.

(** C1 (as the code has it). [save_processed_tracks] rewrites the state
    file in place.  When it completes, the file holds the whole new
    document.  A crash before the file is opened leaves the previous file
    as it was; a crash at any later step leaves a prefix of the new
    document, which may be empty, and nothing of the previous content. *)
Theorem save_processed_tracks_in_place (ids : gset Z) (stamp : string) (f : file) :
  let ops := save_ops ids stamp in
  let new := Json.dumps (processed_doc ids stamp) in
  Disk.run ops f = Some new
  ∧ Disk.crash_after 0 ops f = f
  ∧ (∀ k, (0 < k)%nat →
       ∃ written rest, Disk.crash_after k ops f = Some written
                       ∧ new = written +:+ rest)
  ∧ (∀ k, (length ops ≤ k)%nat → Disk.crash_after k ops f = Some new)
  ∧ (∀ w st, open_raises w = false → last_updated w = stamp →
       processed_tracks st = ids →
       ∃ st', save_processed_tracks w st = (Ok tt, st') ∧ disk st' = Some new
              ∧ processed_tracks st' = ids).
Proof.
  intros ops new. split; [apply run_save_ops |].
  split; [done |]. split; [| split].
  - intros [| k] Hk; [lia |]. unfold ops, save_ops.
    rewrite crash_after_open.
    eexists _, _. split; [done |]. apply join_take_prefix.
  - intros k Hk. unfold Disk.crash_after. rewrite take_ge by done.
    apply run_save_ops.
  - intros w st Hopen Hstamp Hids. unfold save_processed_tracks.
    rewrite Hopen, Hstamp, Hids.
    eexists. split; [reflexivity |]. cbn [disk processed_tracks].
    split; [apply run_save_ops | done].
Qed.

(** A crash after three steps leaves the first two chunks; a save that
    completes leaves the whole document. *)
Lemma save_processed_tracks_in_place_witness :
  Disk.crash_after 3 (save_ops {[1; 2; 3]} "2024-01-02T00:00:00")
                   (Some Examples.old_document)
  = Some (String "{" (Json.newline_indent 1))
  ∧ ∃ st', save_processed_tracks Examples.quiet_world Examples.seen_seven = (Ok tt, st')
           ∧ disk st' = Some (Json.dumps (processed_doc {[7]} "2024-01-03T12:00:00")).
Proof.
  destruct (save_processed_tracks_in_place {[1; 2; 3]} "2024-01-02T00:00:00"
              (Some Examples.old_document)) as (_ & _ & H & _).
  destruct (save_processed_tracks_in_place {[7]} "2024-01-03T12:00:00" None)
    as (_ & _ & _ & _ & H').
  split.
  - destruct (H 3%nat ltac:(lia)) as (written & rest & _ & _). vm_compute. reflexivity.
  - destruct (H' Examples.quiet_world Examples.seen_seven eq_refl eq_refl eq_refl)
      as (st' & E & D & _).
    exists st'. split; [exact E | exact D].
Defined.

(** C1 (as stated) fails: the state file holds a valid document; a crash
    right after [save_processed_tracks] has opened the file leaves it
    empty, and a crash a few chunks later leaves a truncated document.
    Either file is neither the previous one nor the new one, and
    neither can be loaded again. *)
Lemma save_crash_corrupts_store :
  let ops := save_ops {[1; 2; 3]} "2024-01-02T00:00:00" in
  let old := Some Examples.old_document in
  let new := Disk.run ops old in
  load_processed_tracks old = Ok {[1; 2]}
  ∧ Disk.crash_after 1 ops old = Some EmptyString
  ∧ Disk.crash_after 1 ops old ≠ old
  ∧ Disk.crash_after 1 ops old ≠ new
  ∧ load_processed_tracks (Disk.crash_after 1 ops old) = Raise JSONDecodeError
  ∧ Disk.crash_after 6 ops old ≠ old
  ∧ Disk.crash_after 6 ops old ≠ new
  ∧ load_processed_tracks (Disk.crash_after 6 ops old) = Raise JSONDecodeError.
Proof.
  cbv zeta. repeat split; vm_compute; congruence.
Qed.

(** C8. A missing state file loads as the empty set, without error.  A
    file that exists but does not decode, or decodes to something that is
    not a JSON object, makes [load_processed_tracks] raise; the exception
    leaves [__init__], so no bot is built and the process stops instead of
    going on with an empty history. *)
Theorem load_processed_tracks_missing_or_corrupt :
  (load_processed_tracks None = Ok ∅ ∧ init None = Ok (mk_bot ∅ None []))
  ∧ (∀ content, Json.loads content = None →
       load_processed_tracks (Some content) = Raise JSONDecodeError
       ∧ init (Some content) = Raise JSONDecodeError)
  ∧ (∀ content, (∀ members, Json.loads content ≠ Some (JObj members)) →
       ∃ e, load_processed_tracks (Some content) = Raise e
            ∧ init (Some content) = Raise e).
Proof.
  split; [done |]. split.
  - intros content H. unfold init, load_processed_tracks. by rewrite H.
  - intros content H. unfold init, load_processed_tracks.
    destruct (Json.loads content) as [[| b | n | s | items | members] |] eqn:E;
      try (eexists; split; reflexivity).
    by destruct (H members).
Qed.

(** An empty file, a truncated document and a JSON array all stop the
    construction of the bot. *)
Lemma load_processed_tracks_missing_or_corrupt_witness :
  init (Some EmptyString) = Raise JSONDecodeError
  ∧ init (Some "{ track_ids: [1, 2") = Raise JSONDecodeError
  ∧ ∃ e, init (Some "[1, 2, 3]") = Raise e.
Proof.
  destruct load_processed_tracks_missing_or_corrupt as (_ & H & H').
  split; [| split].
  - apply (H EmptyString). vm_compute. reflexivity.
  - apply (H "{ track_ids: [1, 2"). vm_compute. reflexivity.
  - destruct (H' "[1, 2, 3]") as (e & _ & He).
    + intros members. vm_compute. discriminate.
    + exists e. exact He.
Defined.

(* ===================================================================== *)
(** * The monadic loops compute their pure readings                      *)
(* ===================================================================== *)

Section Monad.

Lemma add_events_nil (st : bot) : add_events [] st = st.
Proof. destruct st. unfold add_events. simpl. by rewrite app_nil_r. Qed.

Lemma add_events_app (l k : list event) (st : bot) :
  add_events k (add_events l st) = add_events (l ++ k) st.
Proof. unfold add_events. simpl. by rewrite app_assoc. Qed.

Lemma bind_ok {A B} (m : M A) (f : A → M B) (st st' : bot) (a : A) :
  m st = (Ok a, st') → (m ≫= f) st = f a st'.
Proof. intros H. unfold mbind, M_bind. by rewrite H. Qed.

Lemma bind_raise {A B} (m : M A) (f : A → M B) (st st' : bot) (e : exn) :
  m st = (Raise e, st') → (m ≫= f) st = (Raise e, st').
Proof. intros H. unfold mbind, M_bind. by rewrite H. Qed.

Lemma try_except_ok {A} (m : M A) (h : exn → M A) (st st' : bot) (a : A) :
  m st = (Ok a, st') → try_except m h st = (Ok a, st').
Proof. intros H. unfold try_except. by rewrite H. Qed.

Lemma log_run (e : event) (st : bot) : log e st = (Ok tt, add_events [e] st).
Proof. reflexivity. Qed.

Lemma sleep_run (seconds : Z) (st : bot) :
  0 ≤ seconds → sleep seconds st = (Ok tt, add_events [EvSleep seconds] st).
Proof.
  intros H. unfold sleep. by destruct (Z.ltb_spec seconds 0); [lia |].
Qed.

End Monad.

(** Runs the first action of a bind with the equation [H] of that action. *)
Tactic Notation "run_with" open_constr(H) := rewrite (bind_ok _ _ _ _ _ H).

Section Runs.

Variables (cfg : config) (w : world).

Lemma like_track_run (t : track) (st : bot) :
  like_track cfg w t st
  = (Ok (like_value cfg w t), add_events (like_events cfg w t) st).
Proof.
  unfold like_track, like_value, like_events.
  run_with (log_run _ _).
  destruct (dry_run cfg); [done |].
  destruct (truthy_id (id t)) as [i |]; [| done].
  destruct (Str.is_empty (auth_token cfg)); [done |].
  run_with (log_run _ _). rewrite add_events_app.
  by destruct (like_raises w i).
Qed.

Lemma mark_processed_run (t : track) (st : bot) :
  mark_processed (id t) st
  = (Ok tt, after_marks (match truthy_id (id t) with
                         | Some i => {[i]} | None => ∅ end) [] st).
Proof.
  unfold mark_processed, after_marks. destruct st as [p d j]. simpl.
  rewrite app_nil_r. destruct (truthy_id (id t)); [done |].
  by rewrite (left_id_L ∅ (∪)).
Qed.

Lemma after_marks_add_events (marks : gset Z) (l k : list event) (st : bot) :
  after_marks marks k (add_events l st) = after_marks marks (l ++ k) st.
Proof. unfold after_marks, add_events. simpl. by rewrite app_assoc. Qed.

Lemma add_events_after_marks (marks : gset Z) (l k : list event) (st : bot) :
  add_events k (after_marks marks l st) = after_marks marks (l ++ k) st.
Proof. unfold after_marks, add_events. simpl. by rewrite app_assoc. Qed.

Lemma after_marks_empty (evs : list event) (st : bot) :
  after_marks ∅ evs st = add_events evs st.
Proof. unfold after_marks, add_events. by rewrite (left_id_L ∅ (∪)). Qed.

Lemma after_marks_twice (m m' : gset Z) (l k : list event) (st : bot) :
  after_marks m' k (after_marks m l st) = after_marks (m ∪ m') (l ++ k) st.
Proof.
  unfold after_marks. simpl. rewrite app_assoc. f_equal.
  by rewrite (assoc_L (∪)), (comm_L (∪) m' m).
Qed.

Lemma process_track_run (t : track) (st : bot) :
  process_track cfg w t st
  = (Ok tt, after_marks (track_marks cfg w t) (track_events cfg w t) st).
Proof.
  unfold process_track, track_marks, track_events.
  run_with (log_run _ _).
  destruct (apply_filters cfg t); simpl.
  - run_with (like_track_run _ _). rewrite add_events_app.
    destruct (like_value cfg w t).
    + run_with (mark_processed_run _ _).
      rewrite sleep_run by done.
      by rewrite add_events_after_marks, after_marks_add_events.
    + unfold mbind, M_bind, mret, M_ret. rewrite sleep_run by done.
      by rewrite add_events_app, after_marks_empty.
  - rewrite mark_processed_run, after_marks_add_events. by rewrite app_nil_r.
Qed.

Lemma process_loop_run (tracks : list track) (st : bot) :
  process_loop cfg w tracks st
  = (Ok tt, after_marks (loop_marks cfg w tracks) (loop_events cfg w tracks) st).
Proof.
  revert st. induction tracks as [| t tracks IH]; intros st.
  - simpl. unfold loop_marks, loop_events. simpl.
    by rewrite after_marks_empty, add_events_nil.
  - simpl.
    run_with (try_except_ok _ _ _ _ _ (process_track_run t st)).
    rewrite IH, after_marks_twice. done.
Qed.

End Runs.

Section DiscoveryRuns.

Variables (cfg : config) (w : world).

Lemma call_is_track_recent_run (t : track) (cutoff : datetime) (st : bot) :
  call_is_track_recent t cutoff st
  = (Ok (is_track_recent t cutoff), add_events [EvRecent t] st).
Proof. reflexivity. Qed.

Lemma stream_loop_run (cutoff : datetime) (items : list raw_item)
    (acc : list track) (st : bot) :
  stream_loop cutoff items acc st
  = (Ok (acc ++ select (keep_new (processed_tracks st) cutoff) items),
     add_events (scan_events items) st).
Proof.
  revert acc st. induction items as [| [t |] items IH]; intros acc st.
  - simpl. by rewrite app_nil_r, add_events_nil.
  - simpl. unfold select, scan_events. simpl.
    destruct (truthy_id (id t)) as [i |] eqn:Hi; simpl.
    + run_with (call_is_track_recent_run _ _ _).
      unfold gets, mbind at 1, M_bind. cbn [processed_tracks add_events].
      unfold keep_new at 1.
      destruct (negb (bool_decide (i ∈ processed_tracks st))
                && is_track_recent t cutoff);
        rewrite IH, add_events_app; cbn [processed_tracks add_events];
        [by rewrite <- app_assoc | done].
    + apply IH.
  - simpl. apply IH.
Qed.

Lemma get_new_tracks_from_followings_run (st : bot) :
  get_new_tracks_from_followings cfg w st
  = (Ok (followings_tracks cfg w (processed_tracks st)),
     add_events (followings_events cfg w) st).
Proof.
  unfold get_new_tracks_from_followings, followings_tracks, followings_events,
    followings_on.
  destruct (auto_like_new_tracks (cfg_features cfg)); simpl;
    [| by rewrite add_events_nil].
  destruct (Str.is_empty (your_username cfg)
            || String.eqb (your_username cfg) "your_soundcloud_username"); simpl;
    [by rewrite add_events_nil |].
  apply stream_loop_run.
Qed.

Lemma artist_loop_run (cutoff : datetime) (m : bool) (a : Z)
    (items : list raw_item) (acc : list track) (st : bot) :
  artist_loop cutoff m a items acc st
  = (Ok (acc ++ select (keep_repost (processed_tracks st) cutoff m a) items),
     add_events (scan_events items) st).
Proof.
  revert acc st. induction items as [| [t |] items IH]; intros acc st.
  - simpl. by rewrite app_nil_r, add_events_nil.
  - simpl. unfold select, scan_events. simpl.
    destruct (truthy_id (id t)) as [i |] eqn:Hi; simpl.
    + run_with (call_is_track_recent_run _ _ _).
      unfold gets, mbind at 1, M_bind. cbn [processed_tracks add_events].
      unfold keep_repost at 1.
      destruct ((if m then true
                 else negb (bool_decide (user_id (user t) = Some a)))
                && negb (bool_decide (i ∈ processed_tracks st))
                && is_track_recent t cutoff);
        rewrite IH, add_events_app; cbn [processed_tracks add_events];
        [by rewrite <- app_assoc | done].
    + apply IH.
  - simpl. apply IH.
Qed.

Lemma artists_loop_run (cutoff : datetime) (artists : list string)
    (acc : list track) (st : bot) :
  artists_loop w cutoff artists acc st
  = (Ok (acc ++ (artists ≫= λ a, feed_select (processed_tracks st) cutoff (artist w a))),
     add_events (artists ≫= λ a, feed_events (artist w a)) st).
Proof.
  revert acc st. induction artists as [| a artists IH]; intros acc st.
  - simpl. by rewrite app_nil_r, add_events_nil.
  - simpl. destruct (artist w a) as [| aid items | aid items fails]; simpl.
    + apply IH.
    + run_with (artist_loop_run _ _ _ _ _ _).
      run_with (sleep_run 1 _ ltac:(done)).
      rewrite IH, !add_events_app. cbn [processed_tracks add_events].
      by rewrite <- !app_assoc.
    + run_with (artist_loop_run _ _ _ _ _ _).
      destruct fails.
      * unfold mbind at 1, M_bind, mret, M_ret.
        rewrite IH, !add_events_app. cbn [processed_tracks add_events].
        by rewrite app_nil_r, <- !app_assoc.
      * run_with (sleep_run 1 _ ltac:(done)).
        rewrite IH, !add_events_app. cbn [processed_tracks add_events].
        by rewrite <- !app_assoc.
Qed.

Lemma get_reposts_from_selected_artists_run (st : bot) :
  get_reposts_from_selected_artists cfg w st
  = (Ok (reposts_tracks cfg w (processed_tracks st)),
     add_events (reposts_events cfg w) st).
Proof.
  unfold get_reposts_from_selected_artists, reposts_tracks, reposts_events.
  destruct (auto_like_reposts (cfg_features cfg)); simpl;
    [| by rewrite add_events_nil].
  apply artists_loop_run.
Qed.

Lemma collect_tracks_run (st : bot) :
  collect_tracks cfg w st
  = (Ok (batch cfg w (processed_tracks st)),
     add_events (discovery_events cfg w) st).
Proof.
  unfold collect_tracks.
  run_with (get_new_tracks_from_followings_run st).
  run_with (get_reposts_from_selected_artists_run _).
  by rewrite add_events_app.
Qed.

(** A cycle without candidates only scans; a cycle with candidates
    goes through the batch and then saves. *)
Lemma run_once_run (st : bot) :
  run_once cfg w st
  = match batch cfg w (processed_tracks st) with
    | [] => (Ok tt, add_events (discovery_events cfg w) st)
    | tracks =>
        save_processed_tracks w
          (after_marks (loop_marks cfg w tracks)
                       (discovery_events cfg w ++ loop_events cfg w tracks) st)
    end.
Proof.
  unfold run_once. run_with (collect_tracks_run st).
  destruct (batch cfg w (processed_tracks st)) as [| t tracks]; [done |].
  unfold process_tracks.
  run_with (process_loop_run _ _ _ _).
  by rewrite after_marks_add_events.
Qed.

End DiscoveryRuns.

(* ===================================================================== *)
(** * The batch of a cycle                                               *)
(* ===================================================================== *)

Section Batch.

Lemma has_id_true (i : Z) (t : track) :
  has_id i t = true ↔ truthy_id (id t) = Some i.
Proof. unfold has_id. apply bool_decide_eq_true. Qed.

Lemma has_id_false (i : Z) (t : track) :
  has_id i t = false ↔ truthy_id (id t) ≠ Some i.
Proof. unfold has_id. apply bool_decide_eq_false. Qed.

Lemma elem_of_ids_of (i : Z) (tracks : list track) :
  i ∈ ids_of tracks ↔ ∃ t, t ∈ tracks ∧ truthy_id (id t) = Some i.
Proof. unfold ids_of. apply list_elem_of_omap. Qed.

(** What a scan keeps is usable, passes the test, and was presented. *)
Lemma elem_of_select (keep : Z → track → bool) (items : list raw_item) (t : track) :
  t ∈ select keep items ↔
    ∃ i, RawTrack t ∈ items ∧ truthy_id (id t) = Some i ∧ keep i t = true.
Proof.
  unfold select. rewrite list_elem_of_omap. split.
  - intros ([t' |] & Hin & H); simpl in H; [| done].
    destruct (truthy_id (id t')) as [i |] eqn:Hi; simpl in H; [| done].
    destruct (keep i t') eqn:Hk; [| done].
    injection H as ->. eauto.
  - intros (i & Hin & Hi & Hk). exists (RawTrack t). split; [done |].
    simpl. rewrite Hi. simpl. by rewrite Hk.
Qed.

Variables (cfg : config) (w : world) (processed : gset Z).

Lemma followings_tracks_fresh (t : track) :
  t ∈ followings_tracks cfg w processed →
  ∃ i, truthy_id (id t) = Some i ∧ (i ∉ processed) ∧ RawTrack t ∈ user_stream w.
Proof.
  unfold followings_tracks. destruct (followings_on cfg); [| intros H; by apply elem_of_nil in H].
  intros (i & Hin & Hi & Hk)%elem_of_select. exists i.
  unfold keep_new in Hk. apply andb_true_iff in Hk as [Hk _].
  apply negb_true_iff, bool_decide_eq_false in Hk. done.
Qed.

Lemma feed_select_fresh (cutoff : datetime) (f : artist_feed) (t : track) :
  t ∈ feed_select processed cutoff f →
  ∃ i, truthy_id (id t) = Some i ∧ (i ∉ processed) ∧ RawTrack t ∈ feed_items f.
Proof.
  destruct f as [| a items | a items fails]; simpl;
    [intros H; by apply elem_of_nil in H | |];
    intros (i & Hin & Hi & Hk)%elem_of_select; exists i;
    unfold keep_repost in Hk; apply andb_true_iff in Hk as [Hk _];
    apply andb_true_iff in Hk as [_ Hk];
    apply negb_true_iff, bool_decide_eq_false in Hk; done.
Qed.

Lemma reposts_tracks_fresh (t : track) :
  t ∈ reposts_tracks cfg w processed →
  ∃ i, truthy_id (id t) = Some i ∧ (i ∉ processed)
       ∧ RawTrack t ∈ (repost_artists cfg ≫= λ a, feed_items (artist w a)).
Proof.
  unfold reposts_tracks.
  destruct (auto_like_reposts (cfg_features cfg)); [| intros H; by apply elem_of_nil in H].
  intros (a & Ht & Ha)%list_elem_of_bind.
  destruct (feed_select_fresh _ _ _ Ht) as (i & Hi & Hp & Hin).
  exists i. repeat split; [done.. |]. apply list_elem_of_bind. eauto.
Qed.

End Batch.

Section Unique.

Lemma find_cons_has_id (i : Z) (t : track) (rest : list track) :
  List.find (has_id i) (t :: rest)
  = if has_id i t then Some t else List.find (has_id i) rest.
Proof. reflexivity. Qed.

Lemma unique_loop_spec (all : list track) (acc : list (Z * track)) :
  NoDup acc.*1 →
  NoDup (unique_loop all acc).*1
  ∧ ∀ i t, (i, t) ∈ unique_loop all acc ↔
             (i, t) ∈ acc ∨ ((i ∉ acc.*1) ∧ List.find (has_id i) all = Some t).
Proof.
  revert acc. induction all as [| t0 rest IH]; intros acc Hnd; simpl.
  - split; [done |]. intros i t. split; [by left | by intros [? | [_ ?]]].
  - destruct (truthy_id (id t0)) as [i0 |] eqn:H0.
    + case_bool_decide as Hin.
      * destruct (IH acc Hnd) as [Hnd' Hmem]. split; [done |].
        intros i t. rewrite Hmem. unfold has_id at 2. rewrite H0.
        case_bool_decide as Heq; [| done].
        injection Heq as ->. split; (intros [? | [? ?]]; [by left | done]).
      * assert (NoDup (acc ++ [(i0, t0)]).*1) as Hnd1.
        { rewrite fmap_app. simpl. apply NoDup_app. repeat split; [done | | apply NoDup_singleton].
          intros x Hx ->%list_elem_of_singleton. done. }
        destruct (IH _ Hnd1) as [Hnd' Hmem]. split; [done |].
        intros i t. rewrite Hmem, elem_of_app, list_elem_of_singleton, fmap_app, not_elem_of_app.
        simpl. rewrite list_elem_of_singleton. unfold has_id at 2. rewrite H0.
        case_bool_decide as Heq.
        -- injection Heq as ->. split.
           ++ intros [[? | [= ->]] | [[_ ?] _]]; [by left | by right | done].
           ++ intros [? | [_ [= ->]]]; [by left; left | by left; right].
        -- split.
           ++ intros [[? | [= -> ->]] | [[? _] ?]]; [by left | done | by right].
           ++ intros [? | [? ?]]; [by left; left | right]. repeat split; [done | congruence | done].
    + destruct (IH acc Hnd) as [Hnd' Hmem]. split; [done |].
      intros i t. rewrite Hmem. unfold has_id at 2. rewrite H0.
      by rewrite bool_decide_eq_false_2.
Qed.

Lemma find_has_id_Some (i : Z) (l : list track) (t : track) :
  List.find (has_id i) l = Some t → t ∈ l ∧ truthy_id (id t) = Some i.
Proof.
  intros [Hin Hid]%find_some. split; [by apply list_elem_of_In | by apply has_id_true].
Qed.

Lemma find_has_id_is_Some (i : Z) (l : list track) :
  i ∈ ids_of l → is_Some (List.find (has_id i) l).
Proof.
  intros (t & Hin & Hi)%elem_of_ids_of.
  destruct (List.find (has_id i) l) eqn:E; [done |].
  pose proof (find_none _ _ E t) as Hf.
  apply has_id_false in Hf; [done | by apply list_elem_of_In].
Qed.

(** When every entry is keyed by the identifier of its track, the
    identifiers of the values are the keys. *)
Lemma ids_of_values (r : list (Z * track)) :
  (∀ i t, (i, t) ∈ r → truthy_id (id t) = Some i) → ids_of r.*2 = r.*1.
Proof.
  induction r as [| [i t] r IH]; intros H; [done |].
  simpl. unfold ids_of in *. simpl. rewrite (H i t) by left.
  f_equal. apply IH. intros j u Hin. apply H. by right.
Qed.

Variables (cfg : config) (w : world) (processed : gset Z).

Let all := followings_tracks cfg w processed ++ reposts_tracks cfg w processed.

Lemma elem_of_batch (t : track) :
  t ∈ batch cfg w processed ↔ ∃ i, List.find (has_id i) all = Some t.
Proof.
  unfold batch. fold all. destruct (unique_loop_spec all [] (NoDup_nil_2)) as [_ Hmem].
  rewrite list_elem_of_fmap. split.
  - intros ([i t'] & -> & Hin).
    apply Hmem in Hin as [Hin | [_ ?]]; [by apply elem_of_nil in Hin | eauto].
  - intros [i Hf]. exists (i, t). split; [done |]. apply Hmem. right.
    split; [apply not_elem_of_nil | done].
Qed.

Lemma batch_NoDup : NoDup (ids_of (batch cfg w processed)).
Proof.
  unfold batch. fold all. destruct (unique_loop_spec all [] (NoDup_nil_2)) as [Hnd Hmem].
  rewrite ids_of_values; [done |].
  intros i t Hin. apply Hmem in Hin as [Hin | [_ Hf]];
    [by apply elem_of_nil in Hin | exact (proj2 (find_has_id_Some _ _ _ Hf))].
Qed.

Lemma batch_fresh (t : track) :
  t ∈ batch cfg w processed →
  ∃ i, truthy_id (id t) = Some i ∧ (i ∉ processed) ∧ RawTrack t ∈ world_items cfg w.
Proof.
  intros [i [Hin Hi]%find_has_id_Some]%elem_of_batch.
  unfold all in Hin. apply elem_of_app in Hin as [Hin | Hin].
  - destruct (followings_tracks_fresh _ _ _ _ Hin) as (j & Hj & Hp & Hw).
    exists j. repeat split; [done.. |]. unfold world_items. apply elem_of_app. by left.
  - destruct (reposts_tracks_fresh _ _ _ _ Hin) as (j & Hj & Hp & Hw).
    exists j. repeat split; [done.. |]. unfold world_items. apply elem_of_app. by right.
Qed.

(** The batch holds, for an identifier some path yielded, the first
    track that carries it, new tracks before reposts. *)
Lemma batch_first (i : Z) :
  i ∈ ids_of all →
  ∃ first, List.find (has_id i) all = Some first ∧ first ∈ batch cfg w processed.
Proof.
  intros [first Hf]%find_has_id_is_Some. exists first. split; [done |].
  apply elem_of_batch. eauto.
Qed.

End Unique.

(* ===================================================================== *)
(** * The journal of a cycle                                             *)
(* ===================================================================== *)

Section Journal.

Lemma filter_none (p : event → bool) (l : list event) :
  Forall (λ e, p e = false) l → List.filter p l = [].
Proof.
  induction 1 as [| e l He _ IH]; [done |]. simpl. by rewrite He.
Qed.

Lemma Forall_weaken_action (p : event → bool) (l : list event) :
  (∀ e, is_action e = false → p e = false) →
  Forall (λ e, is_action e = false) l → Forall (λ e, p e = false) l.
Proof. intros H Hl. eapply Forall_impl; [exact Hl | exact H]. Qed.

Lemma scan_events_quiet (items : list raw_item) :
  Forall (λ e, is_action e = false) (scan_events items).
Proof.
  apply Forall_forall. intros e (it & _ & H)%list_elem_of_omap.
  destruct (usable it); simpl in H; [| done]. by injection H as <-.
Qed.

Variables (cfg : config) (w : world).

Lemma discovery_events_quiet :
  Forall (λ e, is_action e = false) (discovery_events cfg w).
Proof.
  unfold discovery_events, followings_events, reposts_events.
  apply Forall_app. split.
  - destruct (followings_on cfg); [apply scan_events_quiet | done].
  - destruct (auto_like_reposts (cfg_features cfg)); [| done].
    apply Forall_forall. intros e (a & He & _)%list_elem_of_bind.
    destruct (artist w a) as [| aid items | aid items fails]; simpl in He;
      [by apply elem_of_nil in He | |];
      (apply elem_of_app in He as [He | He];
       [revert e He; apply Forall_forall, scan_events_quiet |]).
    + by apply list_elem_of_singleton in He as ->.
    + destruct fails; [by apply elem_of_nil in He |].
      by apply list_elem_of_singleton in He as ->.
Qed.

(** The turn of a track concerns identifier [i] only if the track
    carries it. *)
Lemma filter_of_track_events (i : Z) (t : track) :
  List.filter (is_filter_of i) (track_events cfg w t)
  = if has_id i t then [EvFilter t] else [].
Proof.
  unfold track_events, like_events. simpl.
  destruct (has_id i t); (destruct (apply_filters cfg t); [| done]); simpl;
    (destruct (dry_run cfg); [done |]);
    (destruct (truthy_id (id t)); [| done]);
    by destruct (Str.is_empty (auth_token cfg)).
Qed.

Lemma like_of_track_events (i : Z) (t : track) :
  List.filter (is_like_of i) (track_events cfg w t)
  = if has_id i t && apply_filters cfg t then [EvLike t] else [].
Proof.
  unfold track_events, like_events. simpl.
  destruct (apply_filters cfg t); [| by rewrite andb_false_r]. simpl.
  destruct (has_id i t); simpl;
    (destruct (dry_run cfg); [done |]);
    (destruct (truthy_id (id t)); [| done]);
    by destruct (Str.is_empty (auth_token cfg)).
Qed.

Lemma remote_like_of_track_events (i : Z) (t : track) :
  List.filter (is_remote_like_of i) (track_events cfg w t)
  = if has_id i t && apply_filters cfg t && negb (dry_run cfg)
       && negb (Str.is_empty (auth_token cfg))
    then [EvRemoteLike i] else [].
Proof.
  unfold track_events, like_events, has_id. simpl.
  destruct (apply_filters cfg t); [| by rewrite andb_false_r]. simpl.
  destruct (dry_run cfg); [by rewrite andb_false_r |]. simpl.
  destruct (truthy_id (id t)) as [j |]; [| done].
  destruct (Str.is_empty (auth_token cfg)); [by rewrite andb_false_r |]. simpl.
  repeat case_bool_decide; simplify_eq; done.
Qed.

Lemma loop_events_cons (t : track) (tracks : list track) :
  loop_events cfg w (t :: tracks) = track_events cfg w t ++ loop_events cfg w tracks.
Proof. reflexivity. Qed.

(** A batch none of whose tracks carries [i] journals nothing on [i]. *)
Lemma filter_loop_events_none (p : event → bool) (g : track → list event)
    (i : Z) (tracks : list track) :
  (∀ u, List.filter p (track_events cfg w u) = if has_id i u then g u else []) →
  (∀ u, u ∈ tracks → has_id i u = false) →
  List.filter p (loop_events cfg w tracks) = [].
Proof.
  intros Hp. induction tracks as [| u tracks IH]; intros Hno; [done |].
  rewrite loop_events_cons, List.filter_app, Hp, (Hno u) by left.
  simpl. apply IH. intros v Hv. apply Hno. by right.
Qed.

(** In a batch without duplicates, what is journalled on [i] comes
    from the one track that carries it. *)
Lemma filter_loop_events_one (p : event → bool) (g : track → list event)
    (i : Z) (tracks : list track) (t : track) :
  (∀ u, List.filter p (track_events cfg w u) = if has_id i u then g u else []) →
  NoDup (ids_of tracks) → t ∈ tracks → has_id i t = true →
  List.filter p (loop_events cfg w tracks) = g t.
Proof.
  intros Hp. induction tracks as [| u tracks IH]; intros Hnd Hin Hi.
  - by apply elem_of_nil in Hin.
  - rewrite loop_events_cons, List.filter_app, Hp.
    destruct (has_id i u) eqn:Hu.
    + apply has_id_true in Hu. unfold ids_of in Hnd. simpl in Hnd. rewrite Hu in Hnd.
      apply NoDup_cons in Hnd as [Hfresh _].
      assert (∀ v, v ∈ tracks → has_id i v = false) as Hno.
      { intros v Hv. apply has_id_false. intros Hvi. apply Hfresh.
        apply elem_of_ids_of. eauto. }
      rewrite (filter_loop_events_none p g i tracks Hp Hno), app_nil_r.
      apply elem_of_cons in Hin as [-> | Hin]; [done |].
      rewrite (Hno t Hin) in Hi. done.
    + simpl. apply elem_of_cons in Hin as [-> | Hin]; [congruence |].
      apply IH; [| done..].
      unfold ids_of in *. simpl in Hnd.
      destruct (truthy_id (id u)); [by apply NoDup_cons in Hnd as [_ ?] | done].
Qed.

Lemma elem_of_track_marks (i : Z) (t : track) :
  i ∈ track_marks cfg w t ↔
    truthy_id (id t) = Some i
    ∧ (apply_filters cfg t = false ∨ like_value cfg w t = true).
Proof.
  unfold track_marks.
  destruct (truthy_id (id t)) as [j |], (apply_filters cfg t), (like_value cfg w t);
    simpl; rewrite ?elem_of_singleton, ?elem_of_empty; intuition congruence.
Qed.

Lemma elem_of_loop_marks (i : Z) (tracks : list track) :
  i ∈ loop_marks cfg w tracks ↔ ∃ t, t ∈ tracks ∧ i ∈ track_marks cfg w t.
Proof.
  unfold loop_marks. rewrite elem_of_union_list. split.
  - intros (X & (t & -> & Hin)%list_elem_of_fmap & Hi). eauto.
  - intros (t & Hin & Hi). exists (track_marks cfg w t). split; [| done].
    apply list_elem_of_fmap. eauto.
Qed.

(** What a cycle leaves: the identifiers marked, and the journal
    grown by the scan, the turns of the batch and at most one save. *)
Lemma run_once_effect (st : bot) :
  let tracks := batch cfg w (processed_tracks st) in
  let st' := (run_once cfg w st).2 in
  processed_tracks st' = loop_marks cfg w tracks ∪ processed_tracks st
  ∧ ∃ tail,
      journal st' = journal st ++ discovery_events cfg w ++ loop_events cfg w tracks ++ tail
      ∧ (tail = [] ∨ ∃ c, tail = [EvSave c]).
Proof.
  cbv zeta. rewrite run_once_run.
  destruct (batch cfg w (processed_tracks st)) as [| t rest].
  - simpl. split.
    + unfold loop_marks. simpl. by rewrite (left_id_L ∅ (∪)).
    + exists []. split; [by rewrite !app_nil_r | by left].
  - unfold save_processed_tracks.
    destruct (open_raises w); cbn [snd processed_tracks journal after_marks].
    + split; [done |]. exists []. split; [by rewrite app_nil_r | by left].
    + split; [done |]. eexists [_]. split; [by rewrite <- !app_assoc | eauto].
Qed.

Lemma run_once_new_events (st : bot) :
  ∃ tail,
    new_events st (run_once cfg w st).2
    = discovery_events cfg w ++ loop_events cfg w (batch cfg w (processed_tracks st)) ++ tail
    ∧ (tail = [] ∨ ∃ c, tail = [EvSave c]).
Proof.
  destruct (run_once_effect st) as (_ & tail & Hj & Ht).
  exists tail. split; [| done]. unfold new_events. rewrite Hj.
  by rewrite drop_app_length.
Qed.

(** Filtering the events of a cycle for something the scan and the
    save never journal leaves the events of the batch. *)
Lemma filter_new_events (p : event → bool) (st : bot) :
  (∀ e, is_action e = false → p e = false) →
  (∀ c, p (EvSave c) = false) →
  List.filter p (new_events st (run_once cfg w st).2)
  = List.filter p (loop_events cfg w (batch cfg w (processed_tracks st))).
Proof.
  intros Hq Hs. destruct (run_once_new_events st) as (tail & -> & Ht).
  rewrite !List.filter_app.
  rewrite (filter_none p (discovery_events cfg w))
    by (apply Forall_weaken_action; [done | apply discovery_events_quiet]).
  destruct Ht as [-> | [c ->]]; simpl; [by rewrite app_nil_r |].
  by rewrite Hs, app_nil_r.
Qed.

End Journal.

(* ===================================================================== *)
(** * ActionExecutor                                                     *)
(* ===================================================================== *)

Section Finalization.

Variables (cfg : config) (w : world).

Lemma process_tracks_state (tracks : list track) (st : bot) :
  processed_tracks (process_tracks cfg w tracks st).2
  = loop_marks cfg w tracks ∪ processed_tracks st
  ∧ ∃ tail, journal (process_tracks cfg w tracks st).2
            = journal st ++ loop_events cfg w tracks ++ tail
            ∧ (tail = [] ∨ ∃ c, tail = [EvSave c]).
Proof.
  unfold process_tracks. run_with (process_loop_run _ _ _ _).
  unfold save_processed_tracks.
  destruct (open_raises w); cbn [snd processed_tracks journal after_marks].
  - split; [done |]. exists []. split; [by rewrite app_nil_r | by left].
  - split; [done |]. eexists [_]. split; [by rewrite <- !app_assoc | eauto].
Qed.

Lemma like_track_value (t : track) (st : bot) :
  (like_track cfg w t st).1 = Ok (like_value cfg w t).
Proof. by rewrite like_track_run. Qed.

(** In a batch without duplicates, whether an identifier is marked is
    decided by the track that carries it. *)
Lemma elem_of_loop_marks_NoDup (tracks : list track) (t : track) (i : Z) :
  NoDup (ids_of tracks) → t ∈ tracks → truthy_id (id t) = Some i →
  (i ∈ loop_marks cfg w tracks ↔
     apply_filters cfg t = false ∨ like_value cfg w t = true).
Proof.
  intros Hnd Hin Hi. rewrite elem_of_loop_marks. split.
  - intros (u & Hu & [Hui Hm]%elem_of_track_marks).
    assert (u = t) as ->; [| done].
    clear Hm. induction tracks as [| v tracks IH]; [by apply elem_of_nil in Hin |].
    unfold ids_of in Hnd. simpl in Hnd.
    apply elem_of_cons in Hin as [-> | Hin], Hu as [-> | Hu]; [done | | |].
    + rewrite Hi in Hnd. apply NoDup_cons in Hnd as [Hfresh _].
      destruct Hfresh. apply elem_of_ids_of. eauto.
    + rewrite Hui in Hnd. apply NoDup_cons in Hnd as [Hfresh _].
      destruct Hfresh. apply elem_of_ids_of. eauto.
    + apply IH; [| done..].
      destruct (truthy_id (id v)); [by apply NoDup_cons in Hnd as [_ ?] | done].
  - intros Hm. exists t. split; [done |]. by apply elem_of_track_marks.
Qed.

End Finalization.

(** C5. After [process_tracks], the identifier of a track of the batch
    is in ProcessedSet if the content filter rejects the track, and if
    [like_track] reports success on it.  In a batch whose tracks carry
    distinct identifiers (the batches [run_once] builds are such), a
    track that passes the filter and whose like fails (in live mode: the
    remote call raises) is not added, so it stays eligible; in all, the
    identifier is in ProcessedSet afterwards exactly when it was there
    before, or the track is rejected, or its like succeeds.  (The answer
    of [like_track] does not depend on the state it is called in.) *)
Theorem process_tracks_finalization (cfg : config) (w : world)
    (tracks : list track) (st : bot) (t : track) (i : Z) :
  t ∈ tracks → truthy_id (id t) = Some i →
  let st' := (process_tracks cfg w tracks st).2 in
  (apply_filters cfg t = false → i ∈ processed_tracks st')
  ∧ (apply_filters cfg t = true → (like_track cfg w t st).1 = Ok true →
     i ∈ processed_tracks st')
  ∧ (NoDup (ids_of tracks) → i ∉ processed_tracks st →
     apply_filters cfg t = true →
     ((like_track cfg w t st).1 = Ok false → i ∉ processed_tracks st')
     ∧ (dry_run cfg = false → like_raises w i = true → i ∉ processed_tracks st'))
  ∧ (NoDup (ids_of tracks) →
     (i ∈ processed_tracks st' ↔
        i ∈ processed_tracks st ∨ apply_filters cfg t = false
        ∨ (like_track cfg w t st).1 = Ok true)).
Proof.
  intros Hin Hi st'.
  assert (apply_filters cfg t = false ∨ like_value cfg w t = true →
          i ∈ processed_tracks st') as Hmark.
  { intros Hm. unfold st'. destruct (process_tracks_state cfg w tracks st) as [-> _].
    apply elem_of_union_l, elem_of_loop_marks. exists t. split; [done |].
    by apply elem_of_track_marks. }
  assert (NoDup (ids_of tracks) →
          (i ∈ processed_tracks st' ↔
             i ∈ processed_tracks st ∨ apply_filters cfg t = false
             ∨ like_value cfg w t = true)) as Hiff.
  { intros Hnd. unfold st'. destruct (process_tracks_state cfg w tracks st) as [-> _].
    rewrite elem_of_union, (elem_of_loop_marks_NoDup cfg w tracks t i Hnd Hin Hi).
    tauto. }
  rewrite like_track_value.
  split; [| split; [| split]].
  - intros Hf. apply Hmark. by left.
  - intros _ [= Hl]. apply Hmark. by right.
  - intros Hnd Hn Hf. split.
    + intros [= Hl]. rewrite (Hiff Hnd). intros [? | [? | ?]]; congruence.
    + intros Hd Hr. rewrite (Hiff Hnd). intros [? | [? | Hl]]; [done | congruence |].
      unfold like_value in Hl. rewrite Hd, Hi, Hr in Hl.
      by destruct (Str.is_empty (auth_token cfg)).
  - intros Hnd. rewrite (Hiff Hnd).
    split; (intros [? | [? | H]]; [tauto | tauto |]); right; right; congruence.
Qed.

(** Live mode, the remote like of track 7 raises: 7 is not marked. *)
Lemma process_tracks_finalization_witness :
  let st' := (process_tracks Examples.live_config Examples.failing_like_world
                [Examples.fresh] Examples.blank).2 in
  7 ∉ processed_tracks st'.
Proof.
  pose proof (process_tracks_finalization Examples.live_config
                Examples.failing_like_world [Examples.fresh] Examples.blank
                Examples.fresh 7) as H.
  destruct H as (_ & _ & H & _).
  - apply list_elem_of_singleton. reflexivity.
  - reflexivity.
  - apply H; [vm_compute; apply NoDup_singleton | apply not_elem_of_empty
             | reflexivity | reflexivity | reflexivity].
Defined.

(** C9. In simulate mode [like_track] makes no remote call and returns
    [True] for every track; [process_tracks] then journals no remote
    like call, whatever the batch, and every track of the batch that
    carries an identifier (survivors of the content filter and rejected
    tracks alike) is in ProcessedSet afterwards.  A whole cycle makes no
    remote like call either. *)
Theorem dry_run_purity (cfg : config) (w : world) :
  dry_run cfg = true →
  (∀ t st, like_track cfg w t st = (Ok true, add_events [EvLike t] st))
  ∧ (∀ tracks st,
       let st' := (process_tracks cfg w tracks st).2 in
       List.filter is_remote_like (new_events st st') = []
       ∧ ∀ t i, t ∈ tracks → truthy_id (id t) = Some i → i ∈ processed_tracks st')
  ∧ (∀ st, List.filter is_remote_like (new_events st (run_once cfg w st).2) = []).
Proof.
  intros Hdry.
  assert (∀ t, List.filter is_remote_like (track_events cfg w t) = []) as Hte.
  { intros t. unfold track_events, like_events. rewrite Hdry. simpl.
    by destruct (apply_filters cfg t). }
  assert (∀ tracks, List.filter is_remote_like (loop_events cfg w tracks) = []) as Hle.
  { induction tracks as [| t tracks IH]; [done |].
    by rewrite loop_events_cons, List.filter_app, Hte, IH. }
  split; [| split].
  - intros t st. rewrite like_track_run. unfold like_value, like_events.
    by rewrite Hdry.
  - intros tracks st st'. unfold st'.
    destruct (process_tracks_state cfg w tracks st) as (Hp & tail & Hj & Ht).
    split.
    + unfold new_events. rewrite Hj, drop_app_length, List.filter_app, Hle.
      by destruct Ht as [-> | [c ->]].
    + intros t i Hin Hi. rewrite Hp. apply elem_of_union. left.
      apply elem_of_loop_marks. exists t. split; [done |].
      apply elem_of_track_marks. split; [done |]. right.
      unfold like_value. by rewrite Hdry.
  - intros st. rewrite filter_new_events; [apply Hle | by intros [] | done].
Qed.

(** Simulate mode in a world where every remote like would raise: the
    like succeeds without a call and track 7 is marked. *)
Lemma dry_run_purity_witness :
  like_track Examples.dry_config Examples.failing_like_world Examples.fresh
             Examples.blank
  = (Ok true, add_events [EvLike Examples.fresh] Examples.blank)
  ∧ 7 ∈ processed_tracks (process_tracks Examples.dry_config
                            Examples.failing_like_world [Examples.fresh]
                            Examples.blank).2.
Proof.
  destruct (dry_run_purity Examples.dry_config Examples.failing_like_world eq_refl)
    as (H1 & H2 & _).
  split; [apply H1 |].
  destruct (H2 [Examples.fresh] Examples.blank) as [_ H].
  apply (H Examples.fresh 7); [apply list_elem_of_singleton; reflexivity | reflexivity].
Defined.

(* ===================================================================== *)
(** * Aggregator                                                         *)
(* ===================================================================== *)

Lemma find_app_Some {A} (p : A → bool) (l k : list A) (x : A) :
  List.find p l = Some x → List.find p (l ++ k) = Some x.
Proof.
  induction l as [| y l IH]; [done |]. simpl. destruct (p y); [done | exact IH].
Qed.

(** C7. When both discovery paths of a cycle yield a track with the same
    identifier, the batch holds one track with that identifier, the
    first one the stream scan yielded: the cycle calls [apply_filters]
    once for the identifier, on that track; it calls [like_track] once,
    on that track, when the filter admits it (and not at all when the
    filter rejects it); and it makes at most one remote like call for
    the identifier, exactly one in live mode with a token. *)
Theorem run_once_dedup_across_sources (cfg : config) (w : world) (st st1 st2 : bot)
    (new_tracks repost_tracks : list track) (i : Z) :
  get_new_tracks_from_followings cfg w st = (Ok new_tracks, st1) →
  get_reposts_from_selected_artists cfg w st1 = (Ok repost_tracks, st2) →
  i ∈ ids_of new_tracks → i ∈ ids_of repost_tracks →
  ∃ first,
    List.find (has_id i) new_tracks = Some first
    ∧ let evs := new_events st (run_once cfg w st).2 in
      List.filter (is_filter_of i) evs = [EvFilter first]
      ∧ List.filter (is_like_of i) evs
        = (if apply_filters cfg first then [EvLike first] else [])
      ∧ List.filter (is_remote_like_of i) evs
        = (if apply_filters cfg first && negb (dry_run cfg)
              && negb (Str.is_empty (auth_token cfg))
           then [EvRemoteLike i] else []).
Proof.
  rewrite get_new_tracks_from_followings_run. intros [= <- <-].
  rewrite get_reposts_from_selected_artists_run. intros [= <- <-].
  cbn [processed_tracks add_events]. intros Hnew Hrep.
  set (P := processed_tracks st).
  set (all := followings_tracks cfg w P ++ reposts_tracks cfg w P).
  destruct (find_has_id_is_Some i _ Hnew) as [first Hfirst].
  assert (List.find (has_id i) all = Some first) as Hall.
  { unfold all. by apply find_app_Some. }
  exists first. split; [done |].
  assert (first ∈ batch cfg w P) as Hin by (apply elem_of_batch; eauto).
  assert (has_id i first = true) as Hid.
  { apply has_id_true. by apply find_has_id_Some in Hfirst as [_ ?]. }
  pose proof (batch_NoDup cfg w P) as Hnd.
  cbv zeta. fold P. split; [| split].
  - rewrite filter_new_events; [| by intros [] | done]. fold P.
    apply (filter_loop_events_one cfg w _ (λ u, [EvFilter u]) i); try done.
    apply filter_of_track_events.
  - rewrite filter_new_events; [| by intros [] | done]. fold P.
    rewrite (filter_loop_events_one cfg w _
               (λ u, if apply_filters cfg u then [EvLike u] else []) i _ first);
      try done.
    intros u. rewrite like_of_track_events. by destruct (has_id i u).
  - rewrite filter_new_events; [| by intros [] | done]. fold P.
    rewrite (filter_loop_events_one cfg w _
               (λ u, if apply_filters cfg u && negb (dry_run cfg)
                        && negb (Str.is_empty (auth_token cfg))
                     then [EvRemoteLike i] else []) i _ first);
      try done.
    intros u. rewrite remote_like_of_track_events. by destruct (has_id i u).
Qed.

(** Track 7 comes from the stream and again from a repost listing: one
    filter call, one like, one remote call, all on the stream's record. *)
Lemma run_once_dedup_across_sources_witness :
  let evs := new_events Examples.blank
               (run_once Examples.live_config Examples.busy_world Examples.blank).2 in
  List.filter (is_filter_of 7) evs = [EvFilter Examples.fresh]
  ∧ List.filter (is_like_of 7) evs = [EvLike Examples.fresh]
  ∧ List.filter (is_remote_like_of 7) evs = [EvRemoteLike 7].
Proof.
  destruct (run_once_dedup_across_sources Examples.live_config Examples.busy_world
              Examples.blank
              (get_new_tracks_from_followings Examples.live_config
                 Examples.busy_world Examples.blank).2
              (get_reposts_from_selected_artists Examples.live_config
                 Examples.busy_world
                 (get_new_tracks_from_followings Examples.live_config
                    Examples.busy_world Examples.blank).2).2
              [Examples.fresh] [Examples.fresh_again; Examples.other] 7)
    as (first & Hfirst & H).
  - vm_compute. reflexivity.
  - vm_compute. reflexivity.
  - vm_compute. apply list_elem_of_here.
  - vm_compute. apply list_elem_of_here.
  - injection Hfirst as <-. exact H.
Defined.

(** C3 (as the code has it). A track whose identifier is already in
    ProcessedSet is not acted on again: in a cycle whose sources present
    it, no [apply_filters], [like_track] or remote like call is made for
    the identifier, and the identifier stays in ProcessedSet, which only
    grows.  When every track the sources present is already processed,
    the cycle changes neither ProcessedSet nor the state file and makes
    no call of the action stage at all.  (The scan does call
    [is_track_recent] on such a track; the answer is not used.) *)
Theorem processed_track_left_alone (cfg : config) (w : world) (st : bot) (i : Z) :
  i ∈ processed_tracks st →
  let st' := (run_once cfg w st).2 in
  let evs := new_events st st' in
  i ∈ processed_tracks st'
  ∧ processed_tracks st ⊆ processed_tracks st'
  ∧ List.filter (is_filter_of i) evs = []
  ∧ List.filter (is_like_of i) evs = []
  ∧ List.filter (is_remote_like_of i) evs = []
  ∧ ((∀ t j, RawTrack t ∈ world_items cfg w → truthy_id (id t) = Some j →
             j ∈ processed_tracks st) →
     (run_once cfg w st).1 = Ok tt
     ∧ processed_tracks st' = processed_tracks st
     ∧ disk st' = disk st
     ∧ List.filter is_action evs = []).
Proof.
  intros Hi st' evs. unfold evs, st'.
  destruct (run_once_effect cfg w st) as (Hp & _).
  assert (∀ u, u ∈ batch cfg w (processed_tracks st) → has_id i u = false) as Hno.
  { intros u (j & Hj & Hfresh & _)%batch_fresh. apply has_id_false.
    rewrite Hj. intros [= ->]. done. }
  split; [rewrite Hp; by apply elem_of_union_r |].
  split; [rewrite Hp; apply union_subseteq_r |].
  split; [| split; [| split]].
  - rewrite filter_new_events; [| by intros [] | done].
    apply (filter_loop_events_none cfg w _ (λ u, [EvFilter u]) i); [| done].
    apply filter_of_track_events.
  - rewrite filter_new_events; [| by intros [] | done].
    apply (filter_loop_events_none cfg w _
             (λ u, if apply_filters cfg u then [EvLike u] else []) i); [| done].
    intros u. rewrite like_of_track_events. by destruct (has_id i u).
  - rewrite filter_new_events; [| by intros [] | done].
    apply (filter_loop_events_none cfg w _
             (λ u, if apply_filters cfg u && negb (dry_run cfg)
                      && negb (Str.is_empty (auth_token cfg))
                   then [EvRemoteLike i] else []) i); [| done].
    intros u. rewrite remote_like_of_track_events. by destruct (has_id i u).
  - intros Hall.
    assert (batch cfg w (processed_tracks st) = []) as Hb.
    { destruct (batch cfg w (processed_tracks st)) as [| u l] eqn:E; [done |].
      destruct (batch_fresh cfg w (processed_tracks st) u) as (j & Hj & Hfresh & Hw).
      - rewrite E. left.
      - destruct Hfresh. by apply (Hall u j). }
    rewrite run_once_run, Hb. cbn [fst snd processed_tracks disk add_events].
    repeat split. unfold new_events, add_events. cbn [snd journal].
    rewrite drop_app_length. apply filter_none, discovery_events_quiet.
Qed.

(** Track 7 is processed and the stream presents it again: the cycle
    makes no call of the action stage. *)
Lemma processed_track_left_alone_witness :
  let st' := (run_once Examples.live_config Examples.stream_world
                Examples.seen_seven).2 in
  7 ∈ processed_tracks st'
  ∧ List.filter is_action (new_events Examples.seen_seven st') = [].
Proof.
  destruct (processed_track_left_alone Examples.live_config Examples.stream_world
              Examples.seen_seven 7) as (H1 & _ & _ & _ & _ & H2).
  - vm_compute. reflexivity.
  - split; [exact H1 |].
    destruct H2 as (_ & _ & _ & H); [| exact H].
    intros t j Hin Hj. vm_compute in Hin.
    apply list_elem_of_singleton in Hin. injection Hin as ->.
    vm_compute in Hj. injection Hj as <-. vm_compute. reflexivity.
Defined.

(** C3 (as stated) fails on the recency filter: track 7 is in
    ProcessedSet and the stream presents it again; the cycle calls
    [is_track_recent] on it. *)
Lemma processed_track_recency_reevaluated :
  let st := Examples.seen_seven in
  let st' := (run_once Examples.live_config Examples.stream_world st).2 in
  bool_decide (7 ∈ processed_tracks st) = true
  ∧ truthy_id (id Examples.fresh) = Some 7
  ∧ new_events st st' = [EvRecent Examples.fresh]
  ∧ List.filter (is_recent_of 7) (new_events st st') = [EvRecent Examples.fresh].
Proof. cbv zeta. repeat split; vm_compute; reflexivity. Qed.

(** C2 (as the code has it). A cycle always completes its scan.  When
    the scan leaves at least one candidate track and the state file can
    be opened, the cycle ends by writing ProcessedSet to the state file:
    the file then holds the document of the set as the cycle left it.
    When the scan leaves no candidate, [run_once] returns without
    writing: the state file and ProcessedSet are what they were. *)
Theorem run_once_saves_when_candidates (cfg : config) (w : world) (st : bot) :
  ∃ tracks st1,
    collect_tracks cfg w st = (Ok tracks, st1)
    ∧ (tracks = [] →
       run_once cfg w st = (Ok tt, st1)
       ∧ disk st1 = disk st
       ∧ processed_tracks st1 = processed_tracks st
       ∧ List.filter is_save (new_events st st1) = [])
    ∧ (tracks ≠ [] → open_raises w = false →
       ∃ st', run_once cfg w st = (Ok tt, st')
              ∧ disk st' = Some (Json.dumps (processed_doc (processed_tracks st')
                                                           (last_updated w)))
              ∧ List.filter is_save (new_events st st')
                = [EvSave (Json.dumps (processed_doc (processed_tracks st')
                                                     (last_updated w)))]).
Proof.
  eexists _, _. split; [apply collect_tracks_run |]. split.
  - intros Hb. rewrite run_once_run, Hb.
    split; [done |]. split; [done |]. split; [done |].
    unfold new_events, add_events. cbn [journal]. rewrite drop_app_length.
    apply filter_none.
    apply Forall_weaken_action; [by intros [] | apply discovery_events_quiet].
  - intros Hb Hopen. rewrite run_once_run.
    destruct (batch cfg w (processed_tracks st)) as [| t rest] eqn:E; [done |].
    unfold save_processed_tracks. rewrite Hopen.
    eexists. split; [reflexivity |].
    cbn [disk processed_tracks journal after_marks]. rewrite run_save_ops.
    split; [done |].
    unfold new_events. cbn [journal]. rewrite <- app_assoc, drop_app_length.
    rewrite !List.filter_app.
    rewrite (filter_none is_save (discovery_events cfg w))
      by (apply Forall_weaken_action; [by intros [] | apply discovery_events_quiet]).
    rewrite (filter_none is_save (loop_events cfg w (t :: rest))); [done |].
    apply Forall_forall. intros e (u & He & _)%list_elem_of_bind.
    unfold track_events, like_events in He.
    apply elem_of_cons in He as [-> | He]; [done |].
    destruct (apply_filters cfg u); [| by apply elem_of_nil in He].
    apply elem_of_app in He as [He | ->%list_elem_of_singleton]; [| done].
    apply elem_of_cons in He as [-> | He]; [done |].
    destruct (dry_run cfg); [by apply elem_of_nil in He |].
    destruct (truthy_id (id u)); [| by apply elem_of_nil in He].
    destruct (Str.is_empty (auth_token cfg)); [by apply elem_of_nil in He |].
    by apply list_elem_of_singleton in He as ->.
Qed.

(** A cycle with one candidate ends with the document of {7} on disk. *)
Lemma run_once_saves_when_candidates_witness :
  ∃ st', run_once Examples.dry_config Examples.stream_world Examples.blank = (Ok tt, st')
         ∧ disk st' = Some (Json.dumps (processed_doc {[7]} "2024-01-03T12:00:00")).
Proof.
  destruct (run_once_saves_when_candidates Examples.dry_config Examples.stream_world
              Examples.blank) as (tracks & st1 & Hc & _ & H).
  vm_compute in Hc. injection Hc as <- <-.
  destruct H as (st' & Hr & Hd & _); [discriminate | reflexivity |].
  exists st'. split; [exact Hr |]. rewrite Hd.
  vm_compute in Hr. injection Hr as <-. vm_compute. reflexivity.
Defined.

(** C2 (as stated) fails: on a first run (no state file yet) whose scan
    finds nothing, the cycle completes and still no state file exists;
    nothing was written. *)
Lemma run_once_without_candidates_writes_nothing :
  init None = Ok Examples.blank
  ∧ run_once Examples.dry_config Examples.quiet_world Examples.blank
    = (Ok tt, Examples.blank)
  ∧ disk Examples.blank = None
  ∧ List.filter is_save (journal Examples.blank) = [].
Proof. repeat split; vm_compute; reflexivity. Qed.

(* ===================================================================== *)
(** * Scheduler                                                          *)
(* ===================================================================== *)

Section Loop.

Variable cfg : config.






End Loop.




(* ===================================================================== *)
(** * The state file can be read back                                    *)
(* ===================================================================== *)

Section Decimal.

Lemma digits_acc_pos (d : Decimal.uint) (acc : positive) :
  Str.digits_acc (Z.pos acc) (NilEmpty.string_of_uint d)
  = Some (Z.pos (Pos.of_uint_acc d acc)).
Proof.
  revert acc. induction d; intros acc; [done | ..];
    cbn [NilEmpty.string_of_uint Str.digits_acc Pos.of_uint_acc];
    match goal with
    | |- context [Str.is_digit ?c] => change (Str.is_digit c) with true; cbv iota
    end;
    match goal with
    | |- context [Str.digit_val ?c] =>
        let v := eval vm_compute in (Str.digit_val c) in
        change (Str.digit_val c) with v
    end;
    rewrite <- IHd; f_equal; lia.
Qed.

Lemma digits_acc_zero (d : Decimal.uint) :
  Str.digits_acc 0 (NilEmpty.string_of_uint d) = Some (Z.of_N (Pos.of_uint d)).
Proof.
  induction d; simpl; [done | exact IHd | apply digits_acc_pos ..].
Qed.

Lemma span_digits_uint (d : Decimal.uint) (tail : string) :
  ends_number tail = true →
  Json.span_digits (NilEmpty.string_of_uint d +:+ tail)
  = (NilEmpty.string_of_uint d, tail).
Proof.
  intros Ht. induction d; cbn [NilEmpty.string_of_uint];
    try (rewrite append_cons; cbn [Json.span_digits];
         match goal with
         | |- context [Str.is_digit ?c] => change (Str.is_digit c) with true; cbv iota
         end; by rewrite IHd).
  change (EmptyString +:+ tail) with tail.
  destruct tail as [| c r]; [done |]. simpl in *.
  destruct (Str.is_digit c); [done | done].
Qed.

Lemma to_uint_head (p : positive) :
  ∃ c r, NilEmpty.string_of_uint (Pos.to_uint p) = String c r
         ∧ Str.is_digit c = true
         ∧ (c = "0"%char → False).
Proof.
  pose proof (DecimalPos.Unsigned.to_of (Pos.to_uint p)) as Hn.
  rewrite DecimalPos.Unsigned.of_to in Hn. simpl in Hn.
  pose proof (DecimalPos.Unsigned.to_uint_nonzero p) as Hz.
  destruct (Pos.to_uint p) as [| u | u | u | u | u | u | u | u | u | u] eqn:E;
    try (eexists _, _; split; [reflexivity | split; [reflexivity | discriminate]]).
  - by destruct (DecimalPos.Unsigned.to_uint_nonnil p).
  - exfalso. rewrite DecimalFacts.unorm_D0 in Hn.
    destruct u as [| | | | | | | | | |] eqn:Eu; [by destruct Hz | ..];
      (assert (u ≠ Decimal.Nil) as Hne by (by rewrite Eu);
       pose proof (DecimalFacts.nb_digits_unorm u Hne) as Hle;
       rewrite Eu in Hle; rewrite <- Hn in Hle; simpl in Hle; lia).
Qed.

End Decimal.

Section ParseAtoms.

Ltac split_ascii c :=
  destruct c as [[] [] [] [] [] [] [] []].

Lemma parse_nat_lit_digits (d tail : string) (n : Z) :
  ends_number tail = true →
  Json.span_digits (d +:+ tail) = (d, tail) →
  (∃ c r, d = String c r ∧ Str.is_digit c = true
          ∧ (c = "0"%char → r = EmptyString)) →
  Str.int_of_digits d = Some n →
  Json.parse_nat_lit (d +:+ tail) = Some (n, tail).
Proof.
  intros Ht Hs (c & r & -> & Hd & Hz) Hn. unfold Json.parse_nat_lit. rewrite Hs, Hn.
  clear Hs Hn.
  split_ascii c; try done;
    try (rewrite (Hz eq_refl));
    (destruct tail as [| c' r']; [by destruct r |]);
    simpl in Ht; split_ascii c'; try done; by destruct r.
Qed.

Lemma parse_nat_lit_pos (p : positive) (tail : string) :
  ends_number tail = true →
  Json.parse_nat_lit (NilEmpty.string_of_uint (Pos.to_uint p) +:+ tail)
  = Some (Z.pos p, tail).
Proof.
  intros Ht. apply parse_nat_lit_digits; [done | by apply span_digits_uint | |].
  - destruct (to_uint_head p) as (c & r & E & Hd & Hz). exists c, r.
    split; [done |]. split; [done |]. intros Hc. by destruct (Hz Hc).
  - destruct (to_uint_head p) as (c & r & E & _ & _).
    unfold Str.int_of_digits. rewrite E, <- E.
    by rewrite digits_acc_zero, DecimalPos.Unsigned.of_to.
Qed.

Lemma of_Z_pos (p : positive) :
  Str.of_Z (Z.pos p) = NilEmpty.string_of_uint (Pos.to_uint p).
Proof.
  unfold Str.of_Z. simpl. unfold NilZero.string_of_uint.
  pose proof (DecimalPos.Unsigned.to_uint_nonnil p). by destruct (Pos.to_uint p).
Qed.

(** A printed integer is read back, whatever non-number text follows. *)
Lemma parse_value_int (fuel : nat) (n : Z) (tail : string) :
  ends_number tail = true →
  Json.parse_value (S fuel) (Str.of_Z n +:+ tail) = Some (JInt n, tail).
Proof.
  intros Ht. destruct n as [| p | p].
  - change (Str.of_Z 0 +:+ tail) with (String "0" tail).
    cbn [Json.parse_value Json.skip_ws Json.is_ws Ascii.eqb]. simpl.
    change (String "0" tail) with ("0" +:+ tail).
    by rewrite (parse_nat_lit_digits "0" tail 0 Ht);
      [| destruct tail; simpl in *; [done | by destruct (Str.is_digit _)]
       | eexists _, _; split; [reflexivity | done] | ].
  - rewrite of_Z_pos.
    destruct (to_uint_head p) as (c & r & E & Hd & _).
    pose proof (parse_nat_lit_pos p tail Ht) as Hp.
    rewrite E in Hp |- *. rewrite append_cons in Hp |- *.
    split_ascii c; try done; simpl; by rewrite Hp.
  - change (Str.of_Z (Z.neg p)) with (String "-" (Str.of_Z (Z.pos p))).
    rewrite append_cons, of_Z_pos. simpl.
    by rewrite parse_nat_lit_pos.
Qed.

Lemma skip_ws_spaces (n : nat) (s : string) :
  Json.skip_ws (Str.spaces n +:+ s) = Json.skip_ws s.
Proof.
  induction n as [| n IH]; [done |].
  cbn [Str.spaces]. rewrite append_cons. simpl. exact IH.
Qed.

Lemma skip_ws_newline_indent (k : nat) (s : string) :
  Json.skip_ws (Json.newline_indent k +:+ s) = Json.skip_ws s.
Proof. unfold Json.newline_indent. rewrite append_cons. simpl. apply skip_ws_spaces. Qed.

Lemma parse_string_body_escape (s rest : string) :
  printable s = true →
  Json.parse_string_body (Json.escape s +:+ String "034" rest) = Some (s, rest).
Proof.
  induction s as [| c s IH]; [done |].
  cbn [printable Json.escape]. intros [Hc Hs]%andb_true_iff.
  specialize (IH Hs).
  destruct (Ascii.eqb_spec c "034") as [-> | Hq].
  { cbn [orb]. rewrite !append_cons. cbn [Json.parse_string_body Ascii.eqb Bool.eqb orb].
    by rewrite IH. }
  destruct (Ascii.eqb_spec c "092") as [-> | Hb].
  { cbn [orb]. rewrite !append_cons. cbn [Json.parse_string_body Ascii.eqb Bool.eqb orb].
    by rewrite IH. }
  cbn [orb]. rewrite append_cons.
  split_ascii c; try done; cbn [Json.parse_string_body]; by rewrite IH.
Qed.

End ParseAtoms.

Section ParseDocument.

Ltac split_ascii c :=
  destruct c as [[] [] [] [] [] [] [] []].

Lemma append_empty_l (s : string) : EmptyString +:+ s = s.
Proof. reflexivity. Qed.

Lemma skip_ws_idem (s : string) : Json.skip_ws (Json.skip_ws s) = Json.skip_ws s.
Proof.
  induction s as [| c s IH]; [done |]. simpl.
  destruct (Json.is_ws c) eqn:E; [done |]. simpl. by rewrite E.
Qed.

Lemma parse_value_skip_ws (fuel : nat) (s : string) :
  Json.parse_value fuel (Json.skip_ws s) = Json.parse_value fuel s.
Proof. destruct fuel as [| f]; [done |]. simpl. by rewrite skip_ws_idem. Qed.

Lemma parse_members_skip_ws (fuel : nat) (s : string) :
  Json.parse_members fuel (Json.skip_ws s) = Json.parse_members fuel s.
Proof. destruct fuel as [| f]; [done |]. simpl. by rewrite skip_ws_idem. Qed.

Lemma parse_value_str (fuel : nat) (s rest : string) :
  printable s = true →
  Json.parse_value (S fuel) (Json.encode_basestring s +:+ rest) = Some (JStr s, rest).
Proof.
  intros Hs. unfold Json.encode_basestring.
  rewrite append_assoc, !append_cons.
  change (EmptyString +:+ rest) with rest.
  cbn [Json.parse_value Json.skip_ws Json.is_ws Ascii.eqb Bool.eqb orb].
  by rewrite parse_string_body_escape.
Qed.

(** The chunks of an array of integers. *)
Lemma iterencode_ints (x : Z) (xs : list Z) (level : nat) :
  Json.iterencode (JArr (JInt <$> x :: xs)) level
  = [("[" +:+ Json.newline_indent (S level)) +:+ Str.of_Z x]
    ++ ((λ y, ("," +:+ Json.newline_indent (S level)) +:+ Str.of_Z y) <$> xs)
    ++ [Json.newline_indent level; "]"].
Proof.
  cbn [fmap list_fmap Json.iterencode Json.is_container Json.atom].
  f_equal. f_equal.
  induction xs as [| y ys IH]; [done |].
  cbn [fmap list_fmap Json.is_container Json.atom]. cbn [app]. f_equal. exact IH.
Qed.

Lemma after_first_ends_number (xs : list Z) (rest : string) :
  ends_number (after_first xs rest) = true.
Proof. by destruct xs. Qed.

Lemma parse_elements_S (fuel : nat) (s : string) :
  Json.parse_elements (S fuel) s
  = '(v, r) ← Json.parse_value fuel s;
    match Json.skip_ws r with
    | String "," r' => '(vs, r'') ← Json.parse_elements fuel r'; Some (v :: vs, r'')
    | String "]" r' => Some ([v], r')
    | _ => None
    end.
Proof. reflexivity. Qed.

Lemma parse_value_int_ws (fuel : nat) (k : nat) (n : Z) (tail : string) :
  (0 < fuel)%nat → ends_number tail = true →
  Json.parse_value fuel (Json.newline_indent k +:+ Str.of_Z n +:+ tail)
  = Some (JInt n, tail).
Proof.
  intros Hf Ht. destruct fuel as [| f]; [lia |].
  rewrite <- parse_value_skip_ws, skip_ws_newline_indent, parse_value_skip_ws.
  by apply parse_value_int.
Qed.

Lemma parse_elements_ints (fuel : nat) (x : Z) (xs : list Z) (rest : string) :
  (length xs + 2 ≤ fuel)%nat →
  Json.parse_elements fuel (Json.newline_indent 2 +:+ Str.of_Z x +:+ after_first xs rest)
  = Some (JInt <$> x :: xs, rest).
Proof.
  revert fuel x. induction xs as [| y ys IH]; intros fuel x Hf;
    (destruct fuel as [| f]; [simpl in Hf; lia |]);
    rewrite parse_elements_S, parse_value_int_ws
      by (simpl in Hf; first [lia | apply after_first_ends_number]);
    cbn [mbind option_bind].
  - unfold after_first. cbn [fmap list_fmap Str.join foldr].
    rewrite ?append_empty_l.
    rewrite skip_ws_newline_indent. done.
  - unfold after_first. cbn [fmap list_fmap Str.join foldr].
    rewrite !append_assoc, append_cons. rewrite ?append_empty_l.
    cbn [Json.skip_ws Json.is_ws Ascii.eqb Bool.eqb orb].
    fold (Str.join ((λ y0, ("," +:+ Json.newline_indent 2) +:+ Str.of_Z y0) <$> ys)).
    fold (after_first ys rest).
    rewrite IH by (simpl in Hf; lia). done.
Qed.

End ParseDocument.

Section RoundTrip.

Ltac split_ascii c :=
  destruct c as [[] [] [] [] [] [] [] []].

Lemma length_append (a b : string) :
  String.length (a +:+ b) = (String.length a + String.length b)%nat.
Proof. induction a as [| c a IH]; [done |]. rewrite append_cons. simpl. by rewrite IH. Qed.

Lemma of_Z_head (n : Z) :
  ∃ c r, Str.of_Z n = String c r ∧ (Str.is_digit c || Ascii.eqb c "-") = true.
Proof.
  destruct n as [| p | p].
  - by eexists _, _.
  - rewrite of_Z_pos. destruct (to_uint_head p) as (c & r & E & Hd & _).
    exists c, r. by rewrite Hd.
  - by eexists _, _.
Qed.

Lemma parse_value_arr_nonempty (fuel : nat) (r r' : string) (c : ascii) :
  Json.skip_ws r = String c r' → (Str.is_digit c || Ascii.eqb c "-") = true →
  Json.parse_value (S fuel) (String "[" r)
  = '(vs, r'') ← Json.parse_elements fuel r; Some (JArr vs, r'').
Proof.
  intros Hr Hc.
  change (Json.parse_value (S fuel) (String "[" r))
    with (match Json.skip_ws r with
          | String "]" r' => Some (JArr [], r')
          | _ => '(vs, r') ← Json.parse_elements fuel r; Some (JArr vs, r')
          end).
  rewrite Hr. split_ascii c; done.
Qed.

(** An array of integers, as [json.dump] writes it inside the document,
    is read back. *)
Lemma parse_value_ints (fuel : nat) (xs : list Z) (rest : string) :
  (length xs + 2 ≤ fuel)%nat →
  Json.parse_value fuel (Str.join (Json.iterencode (JArr (JInt <$> xs)) 1) +:+ rest)
  = Some (JArr (JInt <$> xs), rest).
Proof.
  intros Hf. destruct fuel as [| f]; [lia |]. destruct xs as [| x xs].
  - reflexivity.
  - rewrite iterencode_ints, !join_app.
    cbn [Str.join foldr]. rewrite !append_assoc, append_cons.
    rewrite ?append_empty_l.
    fold (Str.join ((λ y, ("," +:+ Json.newline_indent 2) +:+ Str.of_Z y) <$> xs)).
    rewrite ?append_empty_r.
    change (Str.join ((λ y, ("," +:+ Json.newline_indent 2) +:+ Str.of_Z y) <$> xs)
            +:+ Json.newline_indent 1 +:+ "]" +:+ rest)
      with (after_first xs rest).
    destruct (of_Z_head x) as (c & r & E & Hc).
    rewrite (parse_value_arr_nonempty f _ (r +:+ after_first xs rest) c);
      [| by rewrite skip_ws_newline_indent, E, append_cons;
            cbn [Json.skip_ws]; destruct (Json.is_ws c) eqn:Hw;
            [split_ascii c; done |]
       | done].
    rewrite parse_elements_ints by (simpl in Hf; lia). done.
Qed.

Lemma length_join_ints (xs : list Z) :
  (length xs ≤ String.length (Str.join (Json.iterencode (JArr (JInt <$> xs)) 1)))%nat.
Proof.
  destruct xs as [| x xs]; [simpl; lia |].
  rewrite iterencode_ints, !join_app, !length_append.
  assert (length xs ≤ String.length
            (Str.join ((λ y, ("," +:+ Json.newline_indent 2) +:+ Str.of_Z y) <$> xs)))%nat.
  { induction xs as [| y ys IH]; [simpl; lia |].
    cbn [fmap list_fmap Str.join foldr].
    fold (Str.join ((λ y, ("," +:+ Json.newline_indent 2) +:+ Str.of_Z y) <$> ys)).
    rewrite !length_append. simpl in *. lia. }
  cbn [Str.join foldr]. rewrite !length_append. simpl. lia.
Qed.

(** The text of the document of the state file. *)
Lemma dumps_processed_doc (l : list Z) (stamp : string) :
  Json.dumps (JObj [("track_ids", JArr (JInt <$> l)); ("last_updated", JStr stamp)])
  = String "{" (Json.newline_indent 1 +:+ Json.encode_basestring "track_ids" +:+ ": "
    +:+ Str.join (Json.iterencode (JArr (JInt <$> l)) 1)
    +:+ String "," (Json.newline_indent 1 +:+ Json.encode_basestring "last_updated"
    +:+ ": " +:+ Json.encode_basestring stamp +:+ Json.newline_indent 0 +:+ "}")).
Proof.
  unfold Json.dumps.
  change (Json.iterencode
            (JObj [("track_ids", JArr (JInt <$> l)); ("last_updated", JStr stamp)]) 0)
    with (["{"; Json.newline_indent 1] ++ [Json.encode_basestring "track_ids"; ": "]
          ++ Json.iterencode (JArr (JInt <$> l)) 1
          ++ ["," +:+ Json.newline_indent 1; Json.encode_basestring "last_updated"; ": ";
              Json.encode_basestring stamp]
          ++ [Json.newline_indent 0; "}"]).
  rewrite !join_app. cbn [Str.join foldr].
  rewrite !append_assoc, !append_cons.
  by rewrite ?append_empty_l, ?append_empty_r.
Qed.

Lemma skip_ws_encode (k r : string) :
  Json.skip_ws (Json.encode_basestring k +:+ r)
  = String "034" (Json.escape k +:+ String "034" r).
Proof.
  unfold Json.encode_basestring.
  by rewrite append_assoc, !append_cons, append_empty_l.
Qed.

Lemma parse_members_key (fuel : nat) (k r : string) :
  printable k = true →
  Json.parse_members (S fuel) (Json.encode_basestring k +:+ r)
  = match Json.skip_ws r with
    | String ":" r2 =>
        '(v, r3) ← Json.parse_value fuel r2;
        match Json.skip_ws r3 with
        | String "," r4 =>
            '(kvs, r5) ← Json.parse_members fuel r4; Some ((k, v) :: kvs, r5)
        | String "}" r4 => Some ([(k, v)], r4)
        | _ => None
        end
    | _ => None
    end.
Proof.
  intros Hk. unfold Json.encode_basestring.
  rewrite append_assoc, !append_cons, append_empty_l.
  change (Json.parse_members (S fuel) (String "034" ?s))
    with ('(k, r1) ← Json.parse_string_body s;
          match Json.skip_ws r1 with
          | String ":" r2 =>
              '(v, r3) ← Json.parse_value fuel r2;
              match Json.skip_ws r3 with
              | String "," r4 =>
                  '(kvs, r5) ← Json.parse_members fuel r4; Some ((k, v) :: kvs, r5)
              | String "}" r4 => Some ([(k, v)], r4)
              | _ => None
              end
          | _ => None
          end).
  by rewrite parse_string_body_escape.
Qed.

Lemma loads_processed_doc (l : list Z) (stamp : string) :
  printable stamp = true →
  Json.loads (Json.dumps (JObj [("track_ids", JArr (JInt <$> l));
                                ("last_updated", JStr stamp)]))
  = Some (JObj [("track_ids", JArr (JInt <$> l)); ("last_updated", JStr stamp)]).
Proof.
  intros Hs. unfold Json.loads.
  assert (length l + 3 ≤ String.length
            (Json.dumps (JObj [("track_ids", JArr (JInt <$> l));
                               ("last_updated", JStr stamp)])))%nat as Hlen.
  { rewrite dumps_processed_doc. cbn [String.length].
    rewrite !length_append. cbn [String.length]. rewrite !length_append.
    pose proof (length_join_ints l). lia. }
  destruct (String.length _) as [| [| f]] eqn:Ef; [lia | lia |].
  rewrite dumps_processed_doc.
  change (Json.parse_value (S (S (S f))) (String "{" ?r))
    with (match Json.skip_ws r with
          | String "}" r' => Some (JObj [], r')
          | _ => '(kvs, r') ← Json.parse_members (S (S f)) r; Some (JObj kvs, r')
          end).
  rewrite skip_ws_newline_indent.
  rewrite <- (parse_members_skip_ws _ (Json.newline_indent 1 +:+ _)),
    skip_ws_newline_indent, parse_members_skip_ws.
  rewrite skip_ws_encode.
  cbv iota.
  rewrite parse_members_key by done.
  rewrite ?append_cons, ?append_empty_l.
  cbn [Json.skip_ws Json.is_ws Ascii.eqb Bool.eqb orb].
  rewrite <- (parse_value_skip_ws _ (String " " _)).
  cbn [Json.skip_ws Json.is_ws Ascii.eqb Bool.eqb orb].
  rewrite parse_value_skip_ws.
  rewrite parse_value_ints by lia. cbn [mbind option_bind].
  cbn [Json.skip_ws Json.is_ws Ascii.eqb Bool.eqb orb].
  rewrite <- (parse_members_skip_ws _ (Json.newline_indent 1 +:+ _)),
    skip_ws_newline_indent, parse_members_skip_ws.
  rewrite parse_members_key by done.
  rewrite ?append_cons, ?append_empty_l.
  cbn [Json.skip_ws Json.is_ws Ascii.eqb Bool.eqb orb].
  rewrite <- (parse_value_skip_ws _ (String " " _)).
  cbn [Json.skip_ws Json.is_ws Ascii.eqb Bool.eqb orb].
  rewrite parse_value_skip_ws.
  destruct f as [| f']; [lia |].
  rewrite parse_value_str by done. cbn [mbind option_bind].
  rewrite skip_ws_newline_indent.
  reflexivity.
Qed.

End RoundTrip.

Section StoreRoundTrip.

Lemma set_of_json_ints (l : list Z) :
  set_of_json (JArr (JInt <$> l)) = Ok (list_to_set l).
Proof.
  unfold set_of_json. rewrite bool_decide_eq_false_2.
  - f_equal. f_equal. induction l as [| x l IH]; [done |].
    cbn [fmap list_fmap omap list_omap]. f_equal. exact IH.
  - intros (x & (n & -> & _)%list_elem_of_fmap & Hx)%Exists_exists. done.
Qed.

(** What [save_processed_tracks] writes, [load_processed_tracks] reads
    back as the same set. *)
Lemma load_saved (ids : gset Z) (stamp : string) :
  printable stamp = true →
  load_processed_tracks (Some (Json.dumps (processed_doc ids stamp))) = Ok ids.
Proof.
  intros Hs. unfold load_processed_tracks, processed_doc.
  rewrite loads_processed_doc by done.
  cbn [Json.dict_get String.eqb Ascii.eqb Bool.eqb].
  rewrite set_of_json_ints. f_equal. apply list_to_set_elements_L.
Qed.

End StoreRoundTrip.

(** X1. Round trip of the state file: whatever the file held before,
    after [save_processed_tracks] has run to its end the file loads as
    exactly the set that was saved, and a bot built from it starts with
    that set.  (The timestamp is printable text, as [isoformat] gives.) *)
Theorem save_then_load (ids : gset Z) (stamp : string) (f : file) :
  printable stamp = true →
  let f' := Disk.run (save_ops ids stamp) f in
  load_processed_tracks f' = Ok ids
  ∧ init f' = Ok (mk_bot ids f' []).
Proof.
  intros Hs f'. unfold init, f'. rewrite run_save_ops.
  by rewrite load_saved.
Qed.

(** The set {3, 5, 8} survives a save over an older file. *)
Lemma save_then_load_witness :
  load_processed_tracks
    (Disk.run (save_ops {[3; 5; 8]} "2024-01-03T12:00:00")
              (Some Examples.old_document))
  = Ok {[3; 5; 8]}.
Proof.
  destruct (save_then_load {[3; 5; 8]} "2024-01-03T12:00:00"
              (Some Examples.old_document) eq_refl) as [H _].
  exact H.
Defined.

(* ===================================================================== *)
(** * Invariants of the perpetual loop                                   *)
(* ===================================================================== *)

Section LoopInvariants.

Variable cfg : config.

(** The sleep at the end of a cycle changes nothing but the journal. *)
Lemma cycle_state (w : world) (st : bot) :
  processed_tracks (cycle cfg w st).2 = processed_tracks (run_once cfg w st).2
  ∧ disk (cycle cfg w st).2 = disk (run_once cfg w st).2
  ∧ ∃ tail, journal (cycle cfg w st).2 = journal (run_once cfg w st).2 ++ tail
            ∧ Forall (λ e, is_action e = false) tail.
Proof.
  unfold cycle.
  destruct (run_once cfg w st) as [[[] | e] st1] eqn:Hr.
  - run_with Hr. unfold interval_sleep, sleep, mbind, M_bind, raise, log.
    destruct (check_interval_minutes cfg * 60 <? 0).
    + repeat split. exists []. by rewrite app_nil_r.
    + destruct (interrupt w); repeat split; eexists [_]; (split; [done |]);
        by repeat constructor.
  - rewrite (bind_raise _ _ _ _ _ Hr). repeat split. exists []. by rewrite app_nil_r.
Qed.

(** Where the loop stands after its first cycle. *)
Lemma run_cons_state (w : world) (ws : list world) (st : bot) :
  (run cfg (w :: ws) st).2 = (run cfg ws (cycle cfg w st).2).2
  ∨ (run cfg (w :: ws) st).2 = (cycle cfg w st).2.
Proof.
  cbn [run]. fold (cycle cfg w).
  destruct (cycle cfg w st) as [[[] | []] st1]; auto.
Qed.

(** What every cycle keeps, the loop keeps. *)
Lemma run_keeps (P : bot → Prop) (Q : world → Prop) :
  (∀ w st, Q w → P st → P (cycle cfg w st).2) →
  ∀ ws st, Forall Q ws → P st → P (run cfg ws st).2.
Proof.
  intros Hstep ws. induction ws as [| w ws IH]; intros st Hws Hst; [done |].
  apply Forall_cons in Hws as [Hw Hws].
  destruct (run_cons_state w ws st) as [-> | ->]; [apply IH | ]; auto.
Qed.

Lemma run_once_in_sync (w : world) (st : bot) :
  printable (last_updated w) = true → open_raises w = false →
  in_sync st → in_sync (run_once cfg w st).2.
Proof.
  intros Hs Ho Hst. unfold in_sync. rewrite run_once_run.
  destruct (batch cfg w (processed_tracks st)) as [| t rest]; [done |].
  unfold save_processed_tracks. rewrite Ho. cbn [snd disk processed_tracks after_marks].
  rewrite run_save_ops. by apply load_saved.
Qed.

(** A processed identifier is not touched by a cycle. *)
Lemma run_once_quiet_on_processed (w : world) (st : bot) (i : Z) :
  i ∈ processed_tracks st →
  List.filter (touches i) (new_events st (run_once cfg w st).2) = [].
Proof.
  intros Hi.
  assert (∀ u, u ∈ batch cfg w (processed_tracks st) → has_id i u = false) as Hno.
  { intros u (j & Hj & Hfresh & _)%batch_fresh. apply has_id_false.
    rewrite Hj. intros [= ->]. done. }
  rewrite filter_new_events; [| by intros [] | done].
  apply filter_none, Forall_forall. intros e (u & He & Hu)%list_elem_of_bind.
  pose proof (Hno u Hu) as Hf. apply has_id_false in Hf.
  unfold track_events, like_events in He.
  assert (∀ e', e' ∈ [EvFilter u; EvLike u; EvSleep 1] → touches i e' = false) as Hbase.
  { intros e' He'. unfold touches.
    repeat (apply elem_of_cons in He' as [-> | He']); simpl;
      rewrite ?(proj2 (has_id_false i u) Hf); try done.
    by apply elem_of_nil in He'. }
  apply elem_of_cons in He as [-> | He]; [apply Hbase, list_elem_of_here |].
  destruct (apply_filters cfg u); [| by apply elem_of_nil in He].
  apply elem_of_app in He as [He | He];
    [| apply Hbase; by do 2 apply list_elem_of_further].
  apply elem_of_cons in He as [-> | He];
    [apply Hbase, list_elem_of_further, list_elem_of_here |].
  destruct (dry_run cfg); [by apply elem_of_nil in He |].
  destruct (truthy_id (id u)) as [j |] eqn:Hj; [| by apply elem_of_nil in He].
  destruct (Str.is_empty (auth_token cfg)); [by apply elem_of_nil in He |].
  apply list_elem_of_singleton in He as ->. unfold touches. simpl.
  apply bool_decide_eq_false. congruence.
Qed.

Lemma cycle_grown_from (st0 : bot) (w : world) (st : bot) :
  grown_from st0 st → grown_from st0 (cycle cfg w st).2.
Proof.
  intros (Hsub & evs & Hj & Hq).
  destruct (cycle_state w st) as (Hp & _ & tail & Hjc & Htail).
  destruct (run_once_effect cfg w st) as (Hp1 & tail1 & Hj1 & _).
  split.
  - rewrite Hp, Hp1. etrans; [exact Hsub | apply union_subseteq_r].
  - exists (evs ++ new_events st (run_once cfg w st).2 ++ tail). split.
    + rewrite Hjc. unfold new_events. rewrite Hj1, drop_app_length, Hj.
      by rewrite <- !app_assoc.
    + intros i Hi. rewrite !List.filter_app, (Hq i Hi).
      rewrite run_once_quiet_on_processed by (by apply Hsub).
      rewrite (filter_none (touches i) tail); [done |].
      eapply Forall_impl; [exact Htail |]. by intros [].
Qed.

Lemma run_grown_from (ws : list world) (st : bot) : grown_from st (run cfg ws st).2.
Proof.
  apply (run_keeps (grown_from st) (λ _, True)).
  - intros w st' _. apply cycle_grown_from.
  - by apply Forall_true.
  - split; [done |]. exists []. split; [by rewrite app_nil_r | done].
Qed.

End LoopInvariants.

(** X2. The state file follows the memory of the bot.  A bot built by
    [init] starts with the set its file loads as; and if the state file
    loads as the ProcessedSet before the perpetual loop runs some cycles,
    each of which can open the file and stamps it with printable text,
    it loads as the ProcessedSet afterwards, however the loop ends: a
    restart at a cycle boundary resumes with the same set. *)
Theorem run_keeps_file_in_sync (cfg : config) (ws : list world) :
  (∀ f b, init f = Ok b → in_sync b)
  ∧ (∀ st,
       in_sync st →
       Forall (λ w, printable (last_updated w) = true ∧ open_raises w = false) ws →
       in_sync (run cfg ws st).2
       ∧ init (disk (run cfg ws st).2)
         = Ok (mk_bot (processed_tracks (run cfg ws st).2)
                      (disk (run cfg ws st).2) [])).
Proof.
  split.
  - intros f b. unfold init, in_sync.
    destruct (load_processed_tracks f) eqn:E; [| done]. by intros [= <-].
  - intros st Hst Hws.
    assert (in_sync (run cfg ws st).2) as Hsync.
    { apply (run_keeps cfg in_sync
               (λ w, printable (last_updated w) = true ∧ open_raises w = false));
        [| done..].
      intros w st' [Hs Ho] Hst'. unfold in_sync.
      destruct (cycle_state cfg w st') as (-> & -> & _).
      by apply run_once_in_sync. }
    split; [done |]. unfold init. by rewrite Hsync.
Qed.

(** First run without a state file, two cycles: the file written by the
    loop loads as the set in memory. *)
Lemma run_keeps_file_in_sync_witness :
  in_sync (run Examples.dry_config [Examples.busy_world; Examples.quiet_world]
               Examples.blank).2.
Proof.
  destruct (run_keeps_file_in_sync Examples.dry_config
              [Examples.busy_world; Examples.quiet_world]) as [H0 H].
  destruct (H Examples.blank) as [Hs _].
  - apply (H0 None). reflexivity.
  - repeat constructor.
  - exact Hs.
Defined.

(** X3. ProcessedSet only grows: neither [process_tracks], nor a cycle,
    nor any number of cycles of the perpetual loop removes an identifier
    from it, whatever the sources answer and however the loop ends. *)
Theorem processed_set_only_grows (cfg : config) (st : bot) :
  (∀ w tracks, processed_tracks st ⊆ processed_tracks (process_tracks cfg w tracks st).2)
  ∧ (∀ w, processed_tracks st ⊆ processed_tracks (run_once cfg w st).2)
  ∧ (∀ ws, processed_tracks st ⊆ processed_tracks (run cfg ws st).2).
Proof.
  split; [| split].
  - intros w tracks. destruct (process_tracks_state cfg w tracks st) as [-> _].
    apply union_subseteq_r.
  - intros w. destruct (run_once_effect cfg w st) as [-> _]. apply union_subseteq_r.
  - intros ws. by destruct (run_grown_from cfg ws st) as [? _].
Qed.

(** X4. Once an identifier is in ProcessedSet, the perpetual loop never
    acts on it again: in no later cycle, whatever the sources present,
    is [apply_filters] or [like_track] called on a track that carries
    it, or a remote like sent for it. *)
Theorem run_never_touches_processed (cfg : config) (ws : list world) (st : bot)
    (i : Z) :
  i ∈ processed_tracks st →
  List.filter (touches i) (new_events st (run cfg ws st).2) = [].
Proof.
  intros Hi. destruct (run_grown_from cfg ws st) as (_ & evs & Hj & Hq).
  unfold new_events. rewrite Hj, drop_app_length. by apply Hq.
Qed.

(** Track 7 is processed; the stream shows it in three cycles of a live
    bot: nothing is done to it. *)
Lemma run_never_touches_processed_witness :
  List.filter (touches 7)
    (new_events Examples.seen_seven
       (run Examples.live_config
            [Examples.stream_world; Examples.busy_world; Examples.stream_world]
            Examples.seen_seven).2) = [].
Proof.
  apply (run_never_touches_processed Examples.live_config _ Examples.seen_seven 7).
  vm_compute. reflexivity.
Defined.

(* ===================================================================== *)
(** * What discovery returns                                             *)
(* ===================================================================== *)

Section Discovery.





End Discovery.







(** X8. A live bot without a token likes nothing: [like_track] returns
    [False] without a remote call, so [process_tracks] sends no like and
    marks only the tracks the content filter rejects; a track that
    passes the filter stays out of ProcessedSet and comes back in every
    cycle. *)
Theorem live_without_token (cfg : config) (w : world) :
  dry_run cfg = false → auth_token cfg = EmptyString →
  (∀ t st, like_track cfg w t st = (Ok false, add_events [EvLike t] st))
  ∧ ∀ tracks st,
      let st' := (process_tracks cfg w tracks st).2 in
      List.filter is_remote_like (new_events st st') = []
      ∧ ∀ i, i ∈ processed_tracks st' ↔
               i ∈ processed_tracks st
               ∨ ∃ t, t ∈ tracks ∧ truthy_id (id t) = Some i
                      ∧ apply_filters cfg t = false.
Proof.
  intros Hlive Htok.
  assert (∀ t, like_value cfg w t = false) as Hlv.
  { intros t. unfold like_value. rewrite Hlive, Htok. by destruct (truthy_id (id t)). }
  assert (∀ t, like_events cfg w t = [EvLike t]) as Hle.
  { intros t. unfold like_events. rewrite Hlive, Htok. by destruct (truthy_id (id t)). }
  split.
  - intros t st. by rewrite like_track_run, Hlv, Hle.
  - intros tracks st st'. unfold st'.
    destruct (process_tracks_state cfg w tracks st) as (Hp & tail & Hj & Ht).
    split.
    + unfold new_events. rewrite Hj, drop_app_length, List.filter_app.
      rewrite (filter_none is_remote_like (loop_events cfg w tracks)).
      * by destruct Ht as [-> | [c ->]].
      * apply Forall_forall. intros e (t & He & _)%list_elem_of_bind.
        unfold track_events in He. rewrite Hle in He.
        apply elem_of_cons in He as [-> | He]; [done |].
        destruct (apply_filters cfg t); [| by apply elem_of_nil in He].
        repeat (apply elem_of_cons in He as [-> | He]; [done |]).
        by apply elem_of_nil in He.
    + intros i. rewrite Hp, elem_of_union, elem_of_loop_marks.
      split.
      * intros [(t & Hin & [Hi Hm]%elem_of_track_marks) | ?]; [| by left].
        right. exists t. rewrite Hlv in Hm. by destruct Hm.
      * intros [? | (t & Hin & Hi & Hf)]; [by right | left].
        exists t. split; [done |]. apply elem_of_track_marks. auto.
Qed.

(** A configuration for real likes whose token was left empty. *)
Lemma live_without_token_witness :
  like_track (mk_config EmptyString "me" [] 60 72 false
                        (mk_features true true false) (mk_filters 0 0 [] 0))
             Examples.stream_world Examples.fresh Examples.blank
  = (Ok false, add_events [EvLike Examples.fresh] Examples.blank).
Proof.
  destruct (live_without_token
              (mk_config EmptyString "me" [] 60 72 false
                         (mk_features true true false) (mk_filters 0 0 [] 0))
              Examples.stream_world eq_refl eq_refl) as [H _].
  apply H.
Defined.

(** X9. How the perpetual loop ends after a cycle that completed.  With
    a negative check interval the sleep raises: [run] raises
    [ValueError] again after the first cycle.  With a proper interval
    and Ctrl-C during the sleep, [run] returns normally.  Either way the
    cycle itself ran to its end: ProcessedSet and the state file are
    those [run_once] left, and no further cycle runs. *)
Theorem run_ends_after_first_cycle (cfg : config) (w : world) (ws : list world)
    (st st1 : bot) :
  run_once cfg w st = (Ok tt, st1) →
  (check_interval_minutes cfg < 0 → run cfg (w :: ws) st = (Reraised ValueError, st1))
  ∧ (0 ≤ check_interval_minutes cfg → interrupt w = true →
     run cfg (w :: ws) st
     = (StoppedByUser, add_events [EvSleep (check_interval_minutes cfg * 60)] st1)).
Proof.
  intros Hr. split.
  - intros Hneg. cbn [run]. run_with Hr. unfold interval_sleep, sleep.
    destruct (Z.ltb_spec (check_interval_minutes cfg * 60) 0); [done | lia].
  - intros Hpos Hint. cbn [run]. run_with Hr. unfold interval_sleep.
    assert (0 ≤ check_interval_minutes cfg * 60) as Hs by lia.
    run_with (sleep_run _ _ Hs). by rewrite Hint.
Qed.

(** A bot configured with an interval of -1 minute stops with
    [ValueError] after one cycle. *)
Lemma run_ends_after_first_cycle_witness :
  (run (mk_config "token" "me" ["dj"] (-1) 72 true
                  (mk_features true true false) (mk_filters 0 0 [] 0))
       [Examples.quiet_world; Examples.quiet_world] Examples.blank).1
  = Reraised ValueError.
Proof.
  destruct (run_ends_after_first_cycle
              (mk_config "token" "me" ["dj"] (-1) 72 true
                         (mk_features true true false) (mk_filters 0 0 [] 0))
              Examples.quiet_world [Examples.quiet_world] Examples.blank
              Examples.blank) as [H _].
  - vm_compute. reflexivity.
  - rewrite H; [reflexivity | done].
Defined.

(* ===================================================================== *)
(** * Pacing, look-back window, batches                                  *)
(* ===================================================================== *)

(** X10. Pacing of [process_tracks]: it pauses one second after every
    call of [like_track], successful or not, and not after a track the
    content filter rejects; so the pauses of a batch, all of one second,
    are as many as the tracks that pass the filter. *)
Theorem process_tracks_pacing (cfg : config) (w : world) (tracks : list track)
    (st : bot) :
  let evs := new_events st (process_tracks cfg w tracks st).2 in
  List.filter is_pause evs
  = (λ _, EvSleep 1) <$> List.filter (apply_filters cfg) tracks
  ∧ List.filter is_like_call evs
    = EvLike <$> List.filter (apply_filters cfg) tracks
  ∧ List.filter (λ e, match e with EvFilter _ => true | _ => false end) evs
    = EvFilter <$> tracks.
Proof.
  cbv zeta. destruct (process_tracks_state cfg w tracks st) as (_ & tail & Hj & Ht).
  unfold new_events. rewrite Hj, drop_app_length, !List.filter_app.
  assert (∀ p : event → bool, (∀ c, p (EvSave c) = false) → List.filter p tail = [])
    as Htail.
  { intros p Hp. destruct Ht as [-> | [c ->]]; [done |]. simpl. by rewrite Hp. }
  rewrite !Htail, !List.app_nil_r by done.
  clear. induction tracks as [| t tracks IH]; [done |].
  rewrite loop_events_cons, !List.filter_app.
  destruct IH as (-> & -> & ->).
  unfold track_events, like_events. cbn [List.filter fmap list_fmap].
  destruct (apply_filters cfg t); [| done].
  cbn [fmap list_fmap].
  destruct (dry_run cfg); [done |].
  destruct (truthy_id (id t)); [| done].
  by destruct (Str.is_empty (auth_token cfg)).
Qed.

(** Two tracks pass the default filters: two pauses. *)
Lemma process_tracks_pacing_witness :
  List.filter is_pause
    (new_events Examples.blank
       (process_tracks Examples.dry_config Examples.quiet_world
          [Examples.fresh; Examples.other] Examples.blank).2)
  = [EvSleep 1; EvSleep 1].
Proof.
  destruct (process_tracks_pacing Examples.dry_config Examples.quiet_world
              [Examples.fresh; Examples.other] Examples.blank) as [H _].
  rewrite H. reflexivity.
Defined.

Section Lookback.

Variables (cfg : config) (w : world) (h h' : Z).
Hypothesis wider : h ≤ h'.





End Lookback.



Section Rerun.

Variables (cfg : config) (w : world).



(** Every identifier a path yields is carried by a track of the batch. *)
Lemma batch_covers (P : gset Z) (t : track) (i : Z) :
  t ∈ followings_tracks cfg w P ++ reposts_tracks cfg w P →
  truthy_id (id t) = Some i →
  ∃ first, first ∈ batch cfg w P ∧ truthy_id (id first) = Some i.
Proof.
  intros Hin Hi.
  destruct (batch_first cfg w P i) as (first & Hf & Hb).
  { apply elem_of_ids_of. eauto. }
  exists first. split; [done |]. by apply find_has_id_Some in Hf as [_ ?].
Qed.




End Rerun.

(** X12. The batch of a cycle is the candidates without duplicates: the
    tracks [collect_tracks] returns all come from the two discovery
    paths, all carry an identifier, no two carry the same one, and every
    identifier a path yielded is carried by one of them, namely by the
    first track that carries it (new tracks before reposts). *)
Theorem collect_tracks_is_dedup (cfg : config) (w : world) (st st1 st2 : bot)
    (new_tracks repost_tracks : list track) :
  get_new_tracks_from_followings cfg w st = (Ok new_tracks, st1) →
  get_reposts_from_selected_artists cfg w st1 = (Ok repost_tracks, st2) →
  ∃ tracks,
    collect_tracks cfg w st = (Ok tracks, st2)
    ∧ NoDup (ids_of tracks)
    ∧ length (ids_of tracks) = length tracks
    ∧ (∀ t, t ∈ tracks ↔
            ∃ i, List.find (has_id i) (new_tracks ++ repost_tracks) = Some t)
    ∧ (∀ i, i ∈ ids_of tracks ↔ i ∈ ids_of (new_tracks ++ repost_tracks)).
Proof.
  rewrite get_new_tracks_from_followings_run. intros [= <- <-].
  rewrite get_reposts_from_selected_artists_run. intros [= <- <-].
  cbn [processed_tracks add_events]. set (P := processed_tracks st).
  exists (batch cfg w P). split.
  { rewrite collect_tracks_run. unfold discovery_events.
    by rewrite add_events_app. }
  split; [apply batch_NoDup |]. split; [| split].
  - assert (∀ l : list track,
              (∀ t, t ∈ l → is_Some (truthy_id (id t))) →
              length (ids_of l) = length l) as Hlen.
    { induction l as [| t l IH]; intros H; [done |].
      unfold ids_of in *. cbn [omap list_omap].
      destruct (H t) as [i ->]; [left |]. simpl. f_equal. apply IH.
      intros u Hu. apply H. by right. }
    apply Hlen. intros t (i & -> & _)%batch_fresh. done.
  - apply elem_of_batch.
  - intros i. rewrite !elem_of_ids_of. split.
    + intros (t & [j [Hin _]%find_has_id_Some]%elem_of_batch & Hi). eauto.
    + intros (t & Hin & Hi).
      destruct (batch_covers cfg w P t i Hin Hi) as (first & ? & ?). eauto.
Qed.

(** The stream yields track 7, the repost listing tracks 7 and 8: the
    batch is the stream's 7, then 8. *)
Lemma collect_tracks_is_dedup_witness :
  (collect_tracks Examples.live_config Examples.busy_world Examples.blank).1
  = Ok [Examples.fresh; Examples.other].
Proof.
  destruct (collect_tracks_is_dedup Examples.live_config Examples.busy_world
              Examples.blank
              (get_new_tracks_from_followings Examples.live_config
                 Examples.busy_world Examples.blank).2
              (get_reposts_from_selected_artists Examples.live_config
                 Examples.busy_world
                 (get_new_tracks_from_followings Examples.live_config
                    Examples.busy_world Examples.blank).2).2
              [Examples.fresh] [Examples.fresh_again; Examples.other])
    as (tracks & E & _).
  - vm_compute. reflexivity.
  - vm_compute. reflexivity.
  - rewrite E. vm_compute in E. injection E as <-. reflexivity.
Defined.





(* ===================================================================== *)
(** * Relaxed filters, failed saves                                      *)
(* ===================================================================== *)

(** X15. Relaxing the content filter never rejects a track it admitted:
    a lower minimum duration, a higher maximum duration (or none: the
    value 0), more allowed genres (or none configured), a lower minimum
    of likes.  Genres are compared without regard to case. *)
Theorem apply_filters_relax (cfg cfg' : config) (t : track) :
  let f := cfg_filters cfg in
  let f' := cfg_filters cfg' in
  min_duration_seconds f' ≤ min_duration_seconds f →
  (max_duration_seconds f' ≤ 0
   ∨ (0 < max_duration_seconds f ∧ max_duration_seconds f ≤ max_duration_seconds f')) →
  (genres f' = []
   ∨ (genres f ≠ []
      ∧ ∀ g, g ∈ genres f → ∃ g', g' ∈ genres f' ∧ Str.lower g' = Str.lower g)) →
  min_likes f' ≤ min_likes f →
  apply_filters cfg t = true → apply_filters cfg' t = true.
Proof.
  intros f f' Hmin Hmax Hgen Hlikes.
  rewrite !apply_filters_rules. fold f f'.
  unfold min_duration_ok, max_duration_ok, genre_ok, likes_ok.
  intros (Hd & Hx & Hg & Hl). repeat split.
  - destruct Hd; [left | right]; lia.
  - destruct Hmax as [? | [? ?]]; [by left |]. destruct Hx; [lia | right; lia].
  - destruct Hgen as [? | [Hne Hsub]]; [by left |]. right.
    destruct Hg as [? | Hin]; [done |].
    apply list_elem_of_fmap in Hin as (g & Hg & Hin).
    destruct (Hsub g Hin) as (g' & Hin' & Hg').
    apply list_elem_of_fmap. exists g'. split; [congruence | done].
  - lia.
Qed.

(** A track admitted with "House" allowed stays admitted when "techno"
    is allowed too and the genre is written in capitals. *)
Lemma apply_filters_relax_witness :
  apply_filters
    (mk_config "token" "me" [] 60 72 true (mk_features true true false)
               (mk_filters 0 600 ["HOUSE"; "techno"] 0))
    (mk_track (Some 1) "t" EmptyString 300000 "house" 3 EmptyString Examples.somebody)
  = true.
Proof.
  apply (apply_filters_relax
           (mk_config "token" "me" [] 60 72 true (mk_features true true false)
                      (mk_filters 60 400 ["House"] 2))).
  - simpl. lia.
  - right. simpl. lia.
  - right. split; [done |]. intros g ->%list_elem_of_singleton.
    exists "HOUSE". split; [apply list_elem_of_here | reflexivity].
  - simpl. lia.
  - reflexivity.
Defined.

(** X16. When the state file cannot be opened at the end of a batch,
    [process_tracks] raises [OSError] after the likes were sent: the
    tracks it finalized are in ProcessedSet in memory, but the state
    file is untouched and still loads as the set from before the batch,
    so a restarted bot has forgotten them. *)
Theorem failed_save_forgets_batch (cfg : config) (w : world) (tracks : list track)
    (st : bot) :
  open_raises w = true →
  ∃ st',
    process_tracks cfg w tracks st = (Raise OSError, st')
    ∧ disk st' = disk st
    ∧ (in_sync st → load_processed_tracks (disk st') = Ok (processed_tracks st))
    ∧ List.filter is_save (new_events st st') = []
    ∧ ∀ t i, t ∈ tracks → truthy_id (id t) = Some i →
             apply_filters cfg t = false ∨ (like_track cfg w t st).1 = Ok true →
             i ∈ processed_tracks st'.
Proof.
  intros Ho. unfold process_tracks.
  run_with (process_loop_run _ _ _ _). unfold save_processed_tracks. rewrite Ho.
  eexists. split; [reflexivity |]. cbn [disk processed_tracks after_marks].
  split; [done |]. split; [done |]. split.
  - unfold new_events. cbn [journal after_marks]. rewrite drop_app_length.
    apply filter_none, Forall_forall. intros e (u & He & _)%list_elem_of_bind.
    unfold track_events, like_events in He.
    apply elem_of_cons in He as [-> | He]; [done |].
    destruct (apply_filters cfg u); [| by apply elem_of_nil in He].
    apply elem_of_app in He as [He | ->%list_elem_of_singleton]; [| done].
    apply elem_of_cons in He as [-> | He]; [done |].
    destruct (dry_run cfg); [by apply elem_of_nil in He |].
    destruct (truthy_id (id u)); [| by apply elem_of_nil in He].
    destruct (Str.is_empty (auth_token cfg)); [by apply elem_of_nil in He |].
    by apply list_elem_of_singleton in He as ->.
  - intros t i Hin Hi Hm. rewrite like_track_value in Hm.
    apply elem_of_union_l, elem_of_loop_marks. exists t. split; [done |].
    apply elem_of_track_marks. split; [done |].
    destruct Hm as [? | [= ?]]; auto.
Qed.

(** Track 7 is liked in simulate mode, the file cannot be opened: 7 is
    in memory, and no state file exists. *)
Lemma failed_save_forgets_batch_witness :
  ∃ st', process_tracks Examples.dry_config Examples.read_only_world [Examples.fresh]
           Examples.blank = (Raise OSError, st')
         ∧ 7 ∈ processed_tracks st' ∧ disk st' = None.
Proof.
  destruct (failed_save_forgets_batch Examples.dry_config Examples.read_only_world
              [Examples.fresh] Examples.blank eq_refl)
    as (st' & E & Hd & _ & _ & Hm).
  exists st'. split; [exact E |]. split; [| exact Hd].
  apply (Hm Examples.fresh 7); [apply list_elem_of_here | reflexivity |].
  right. reflexivity.
Defined.
